(** * ParseScript and the hex decoders of core_read.cpp

    A shallow embedding of [ParseScript], [DecodeHexTx] and [DecodeHexBlk]
    (src/core_read.cpp).  Strings are [string], the script buffer
    ([CScript], a vector of unsigned char) is a [list Z] of byte values,
    [size_t] counters are [Z], a thrown [std::runtime_error] is [inl] of its
    message, and the static [std::map<string, opcodetype>] is a
    [gmap string Z]. *)

From Stdlib Require Import ZArith Ascii String Lia.
From stdpp Require Import gmap strings list pretty.

Local Open Scope Z_scope.

(** ** Characters and strings *)

Definition char_code (c : ascii) : Z := Z.of_N (N_of_ascii c).

Definition bytes_of_string (s : string) : list Z :=
  List.map char_code (list_ascii_of_string s).

(** [boost::algorithm::is_digit()] in the classic locale. *)
Definition is_digit (c : ascii) : bool :=
  (48 <=? char_code c) && (char_code c <=? 57).

(** [boost::algorithm::all(w, pred)]. *)
Fixpoint all (w : string) (pred : ascii -> bool) : bool :=
  match w with
  | EmptyString => true
  | String c w' => pred c && all w' pred
  end.

Definition starts_with (w p : string) : bool := String.prefix p w.

Definition ends_with (w p : string) : bool :=
  String.prefix (String.rev p) (String.rev w).

(** [std::string(w.begin() + n, w.end())]. *)
Fixpoint str_drop (n : nat) (w : string) : string :=
  match n, w with
  | O, _ => w
  | S n', String _ w' => str_drop n' w'
  | S _, EmptyString => EmptyString
  end.

(** [std::string(w.begin(), w.begin() + n)]. *)
Fixpoint str_take (n : nat) (w : string) : string :=
  match n, w with
  | S n', String c w' => String c (str_take n' w')
  | _, _ => EmptyString
  end.

(** [boost::algorithm::replace_first(str, pat, rep)]: the first occurrence
    of [pat] anywhere in [str] is replaced; without one [str] is unchanged. *)
Fixpoint replace_first (str pat rep : string) : string :=
  if String.prefix pat str then rep +:+ str_drop (String.length pat) str
  else match str with
       | EmptyString => EmptyString
       | String c str' => String c (replace_first str' pat rep)
       end.

(** [is_any_of(" \t\n")]. *)
Definition is_sep (c : ascii) : bool :=
  (char_code c =? 32) || (char_code c =? 9) || (char_code c =? 10).

(** [boost::algorithm::split(words, s, is_any_of(" \t\n"), token_compress_on)]:
    the input is cut at every run of separators; a run counts once, so the
    only empty words are one before a leading run and one after a trailing
    run, and the empty input gives one empty word.  [merged] says that the
    previous character was a separator. *)
Fixpoint split_from (merged : bool) (s : string) : list string :=
  match s with
  | EmptyString => [EmptyString]
  | String c s' =>
      if is_sep c then
        if merged then split_from true s'
        else EmptyString :: split_from true s'
      else
        match split_from false s' with
        | t :: ts => String c t :: ts
        | [] => [String c EmptyString]
        end
  end.

Definition split (s : string) : list string := split_from false s.

(** ** Opcodes (script/script.h)

    Modelled from the spec: the [opcodetype] constants of script/script.h,
    which is not among the sources.  The direct-length pushes are 1..75, so
    the first multi-byte push opcode [OP_PUSHDATA1] is 76, followed by
    [OP_PUSHDATA2] and [OP_PUSHDATA4]; [OP_0] is the empty push and
    [OP_1] .. [OP_16] are the small-number opcodes. *)
Definition OP_0 : Z := 0.
Definition OP_PUSHDATA1 : Z := 76.
Definition OP_PUSHDATA2 : Z := 77.
Definition OP_PUSHDATA4 : Z := 78.
Definition OP_1NEGATE : Z := 79.
Definition OP_1 : Z := 81.
Definition OP_16 : Z := 96.

(** ** Collaborators of utilstrencodings and crypto/common.h *)

(** Modelled from the spec: [HexDigit] of utilstrencodings.cpp (absent);
    the value of a hexadecimal digit of either case, -1 for any other
    character. *)
Definition HexDigit (c : ascii) : Z :=
  let n := char_code c in
  if (48 <=? n) && (n <=? 57) then n - 48
  else if (97 <=? n) && (n <=? 102) then n - 87
  else if (65 <=? n) && (n <=? 70) then n - 55
  else -1.

(** Modelled from the spec: [IsHex] of utilstrencodings.cpp (absent);
    "validates even-length, all-hex-digit string", and [IsHex("")] is false
    (the note in [ParseHashStr]). *)
Definition IsHex (str : string) : bool :=
  all str (fun c => 0 <=? HexDigit c)
  && (0 <? Z.of_nat (String.length str))
  && (Z.of_nat (String.length str) mod 2 =? 0).

(** Modelled from the spec: [ParseHex] of utilstrencodings.cpp (absent);
    two digits make one byte, the first being the high nibble; decoding
    stops at the first character that is not a hex digit. *)
Fixpoint ParseHex (psz : string) : list Z :=
  match psz with
  | String c1 (String c2 rest) =>
      if (HexDigit c1 <? 0) || (HexDigit c2 <? 0) then []
      else Z.lor (Z.shiftl (HexDigit c1) 4) (HexDigit c2) :: ParseHex rest
  | _ => []
  end.

(** [ReadLE16] and [ReadLE32] of crypto/common.h at [&result[offset]]; a
    read past the end of the buffer (undefined in the source) reads 0. *)
Definition byte_at (buf : list Z) (i : nat) : Z := nth i buf 0.

Definition ReadLE16 (buf : list Z) (offset : nat) : Z :=
  Z.lor (byte_at buf offset) (Z.shiftl (byte_at buf (offset + 1)) 8).

Definition ReadLE32 (buf : list Z) (offset : nat) : Z :=
  Z.lor (Z.lor (byte_at buf offset) (Z.shiftl (byte_at buf (offset + 1)) 8))
        (Z.lor (Z.shiftl (byte_at buf (offset + 2)) 16)
               (Z.shiftl (byte_at buf (offset + 3)) 24)).

(** Modelled from the spec: [atoi64] of utilstrencodings.cpp (absent);
    "parse as a signed 64-bit integer" in the manner of [strtoll]: an
    optional sign, then the longest run of digits (none gives 0), the value
    saturating at the ends of the 64-bit range. *)
Fixpoint digits_value (acc : Z) (w : string) : Z :=
  match w with
  | String c w' =>
      if is_digit c then digits_value (10 * acc + (char_code c - 48)) w'
      else acc
  | EmptyString => acc
  end.

Definition INT64_MAX : Z := 9223372036854775807.
Definition INT64_MIN : Z := -9223372036854775808.

Definition saturate64 (n : Z) : Z := Z.max INT64_MIN (Z.min INT64_MAX n).

Definition atoi64 (w : string) : Z :=
  match w with
  | String "-" w' => saturate64 (- digits_value 0 w')
  | String "+" w' => saturate64 (digits_value 0 w')
  | _ => saturate64 (digits_value 0 w)
  end.

(** ** The push encoders of CScript (script/script.h) *)

(** [WriteLE16] / [WriteLE32] of a length. *)
Definition le16 (n : Z) : list Z := [Z.land n 255; Z.land (Z.shiftr n 8) 255].

Definition le32 (n : Z) : list Z :=
  [Z.land n 255; Z.land (Z.shiftr n 8) 255;
   Z.land (Z.shiftr n 16) 255; Z.land (Z.shiftr n 24) 255].

(** Modelled from the spec: the prefix [CScript::operator<<(const
    std::vector<unsigned char>&)] writes before [n] bytes of data: "a single
    byte N (if N <= 75), or PUSHDATA1 + 1-byte length (N <= 255), PUSHDATA2 +
    2-byte little-endian length (N <= 65535), or PUSHDATA4 + 4-byte
    little-endian length otherwise". *)
Definition push_prefix (n : Z) : list Z :=
  if n <? OP_PUSHDATA1 then [n]
  else if n <=? 255 then [OP_PUSHDATA1; n]
  else if n <=? 65535 then OP_PUSHDATA2 :: le16 n
  else OP_PUSHDATA4 :: le32 n.

(** [result << value] for a byte vector. *)
Definition push_data (result b : list Z) : list Z :=
  result ++ push_prefix (Z.of_nat (length b)) ++ b.

(** [result << op] for an opcode: one byte. *)
Definition push_opcode (result : list Z) (op : Z) : list Z := result ++ [op].

(** The little-endian bytes of a magnitude below 2^(8*fuel). *)
Fixpoint magnitude_bytes (fuel : nat) (absvalue : Z) : list Z :=
  match fuel with
  | O => []
  | S fuel' =>
      if absvalue =? 0 then []
      else Z.land absvalue 255 :: magnitude_bytes fuel' (Z.shiftr absvalue 8)
  end.

(** Modelled from the spec: [CScriptNum::serialize] (absent);
    "sign-magnitude with an explicit sign bit in the high bit of the last
    byte, empty encoding for zero". *)
Definition CScriptNum_serialize (value : Z) : list Z :=
  if value =? 0 then []
  else
    let neg := value <? 0 in
    let mag := magnitude_bytes 8 (Z.abs value) in
    let top := List.last mag 0 in
    if Z.testbit top 7 then mag ++ [if neg then 128 else 0]
    else if neg then removelast mag ++ [Z.lor top 128]
    else mag.

(** Modelled from the spec: [CScript::operator<<(int64_t)] (absent), the
    "minimal-integer push encoder": the small numbers -1 and 1..16 are one
    opcode, zero is [OP_0], anything else is its serialization pushed as
    data. *)
Definition push_int64 (result : list Z) (n : Z) : list Z :=
  if (n =? -1) || ((1 <=? n) && (n <=? 16)) then push_opcode result (n + (OP_1 - 1))
  else if n =? 0 then push_opcode result OP_0
  else push_data result (CScriptNum_serialize n).


(** ** ParseScript *)

(** The three messages [ParseScript] throws. *)
Definition hex_error_msg : string :=
  "Hex numbers expected to be formatted in full-byte chunks (ex: 0x00 instead of 0x0)".

Definition parse_error_msg (s : string) : string :=
  "Error parsing script: " +:+ s.

(** [boost::lexical_cast<std::string>] of a [size_t] is its decimal text. *)
Definition push_error_msg (push_size size_change : Z) : string :=
  "Wrong number of bytes being pushed. Expected:" +:+ pretty push_size
  +:+ " Pushed:" +:+ pretty size_change.

(** What is carried from one word to the next: the script written so far
    and the two counters that live across iterations ([push_size] and
    [script_size] are assigned afresh at the top of every iteration). *)
Record state : Type := mkState {
  result : list Z;
  next_push_size : Z;
  push_data_size : Z
}.

Definition initial_state : state := mkState [] 0 0.

(** Lines 130-148: with a push pending and a PUSHDATA field width set, the
    bytes written from [script_size] on are the length field; gives the new
    ([next_push_size], [push_data_size]). *)
Definition read_push_field (result' : list Z) (script_size : nat)
    (push_size push_data_size : Z) : Z * Z :=
  if negb (push_size =? 0) && negb (push_data_size =? 0) then
    ((if push_data_size =? 1 then byte_at result' script_size
      else if push_data_size =? 2 then ReadLE16 result' script_size
      else if push_data_size =? 4 then ReadLE32 result' script_size
      else 0), 0)
  else (0, push_data_size).

(** Lines 150-176: with no push pending and one byte written, that byte is
    looked at as an opcode. *)
Definition inspect_opcode (result' : list Z) (push_size size_change : Z)
    (field : Z * Z) : state :=
  if (push_size =? 0) && (size_change =? 1) then
    let op := List.last result' 0 in
    if op <? OP_PUSHDATA1 then mkState result' op (snd field)
    else if op =? OP_PUSHDATA1 then mkState result' 1 1
    else if op =? OP_PUSHDATA2 then mkState result' 2 2
    else if op =? OP_PUSHDATA4 then mkState result' 4 4
    else mkState result' (fst field) (snd field)
  else mkState result' (fst field) (snd field).

(** Lines 119-176, from the label [next] to the end of the loop body. *)
Definition next (st : state) (result' : list Z) : string + state :=
  let script_size := length (result st) in
  let push_size := next_push_size st in
  let size_change := Z.of_nat (length result') - Z.of_nat script_size in
  if negb (push_size =? 0) && negb (size_change =? push_size) then
    inl (push_error_msg push_size size_change)
  else
    inr (inspect_opcode result' push_size size_change
           (read_push_field result' script_size push_size (push_data_size st))).

(** The tests of lines 71-74, 82-83 and 99-100 on a word.  In the second,
    [w.begin() + 2 != w.end()] is only evaluated for a word that starts with
    0x, where it says that the length is not 2. *)
Definition is_number_word (w : string) : bool :=
  all w is_digit || (starts_with w "-" && all (str_drop 1 w) is_digit).

Definition is_hex_word (w : string) : bool :=
  starts_with w "0x" && negb (String.length w =? 2)%nat.

Definition is_quoted_word (w : string) : bool :=
  (2 <=? String.length w)%nat && starts_with w "'" && ends_with w "'".

(** [std::vector<uint8_t> value(w.begin() + 1, w.end() - 1)]. *)
Definition quoted_content (w : string) : string :=
  str_take (String.length w - 2) (str_drop 1 w).

Section ParseScript.

(** [GetOpName] (script/script.cpp) and [FIRST_UNDEFINED_OP_VALUE]
    (script/script.h) are not among the sources: the table of opcode
    names is a parameter of the development. *)
Variable GetOpName : Z -> string.
Variable FIRST_UNDEFINED_OP_VALUE : Z.

(** Lines 31-45, one turn of the loop that fills [mapOpNames]. *)
Definition add_op_names (m : gmap string Z) (op : Z) : gmap string Z :=
  if op <? OP_PUSHDATA1 then m
  else
    let name := GetOpName op in
    if String.eqb name "OP_UNKNOWN" then m
    else <[replace_first name "OP_" "" := op]> (<[name := op]> m).

Definition mapOpNames : gmap string Z :=
  foldl add_op_names ∅ (seqZ 0 FIRST_UNDEFINED_OP_VALUE).

(** Lines 70-117: the rule that applies to the word [w], tried in the
    order of the source; the first that matches writes to [result]. *)
Definition emit (s : string) (result : list Z) (w : string)
    : string + list Z :=
  if is_number_word w then inr (push_int64 result (atoi64 w))
  else if is_hex_word w then
    if negb (IsHex (str_drop 2 w)) then inl hex_error_msg
    else inr (result ++ ParseHex (str_drop 2 w))
  else if is_quoted_word w then
    inr (push_data result (bytes_of_string (quoted_content w)))
  else
    match mapOpNames !! w with
    | Some op => inr (push_opcode result op)
    | None => inl (parse_error_msg s)
    end.

(** One iteration of the loop over [words]. *)
Definition step (s : string) (st : state) (w : string) : string + state :=
  if String.eqb w "" then inr st
  else
    match emit s (result st) w with
    | inl e => inl e
    | inr result' => next st result'
    end.

Fixpoint ParseWords (s : string) (st : state) (words : list string)
    : string + state :=
  match words with
  | [] => inr st
  | w :: words' =>
      match step s st w with
      | inl e => inl e
      | inr st' => ParseWords s st' words'
      end
  end.

Definition ParseScript (s : string) : string + list Z :=
  match ParseWords s initial_state (split s) with
  | inl e => inl e
  | inr st => inr (result st)
  end.

End ParseScript.

(** ** A table of opcode names

    [GetOpName] restricted to a handful of opcodes, named as script.cpp
    names them (the small numbers carry their numeral, everything else the
    prefix OP_); every other value has the name of the unknown opcode.  It
    instantiates the parameter wherever a closed example is wanted. *)
Definition sampleOpName (op : Z) : string :=
  if op =? 76 then "OP_PUSHDATA1"
  else if op =? 77 then "OP_PUSHDATA2"
  else if op =? 78 then "OP_PUSHDATA4"
  else if op =? 79 then "-1"
  else if op =? 80 then "OP_RESERVED"
  else if op =? 81 then "1"
  else if op =? 82 then "2"
  else if op =? 96 then "16"
  else if op =? 97 then "OP_NOP"
  else if op =? 109 then "OP_2DROP"
  else if op =? 118 then "OP_DUP"
  else if op =? 135 then "OP_EQUAL"
  else if op =? 139 then "OP_1ADD"
  else if op =? 146 then "OP_0NOTEQUAL"
  else if op =? 147 then "OP_ADD"
  else if op =? 169 then "OP_HASH160"
  else if op =? 172 then "OP_CHECKSIG"
  else "OP_UNKNOWN".

Definition sampleFirstUndefined : Z := 188.

Definition sampleParseScript : string -> string + list Z :=
  ParseScript sampleOpName sampleFirstUndefined.

(** ** DecodeHexTx and DecodeHexBlk *)

Section DecodeHex.

(** The versioned deserializers ([ssData >> tx], [ssBlock >> block]) are
    outside the sources: a deserializer reads a value off the front of the
    stream and leaves the unread bytes in it, or throws ([None]). *)
Variables CTransaction CBlock : Type.
Variable read_tx : list Z -> option (CTransaction * list Z).
Variable read_block : list Z -> option (CBlock * list Z).

(** The returned flag, with the value left in the reference argument (a
    throwing read leaves the argument as the caller passed it). *)
Definition DecodeHexTx (tx : CTransaction) (strHexTx : string)
    : bool * CTransaction :=
  if negb (IsHex strHexTx) then (false, tx)
  else
    let txData := ParseHex strHexTx in
    match read_tx txData with
    | Some (tx', ssData) =>
        if negb (Nat.eqb (length ssData) 0) then (false, tx')
        else (true, tx')
    | None => (false, tx)
    end.

Definition DecodeHexBlk (block : CBlock) (strHexBlk : string)
    : bool * CBlock :=
  if negb (IsHex strHexBlk) then (false, block)
  else
    let blockData := ParseHex strHexBlk in
    match read_block blockData with
    | Some (block', _) => (true, block')
    | None => (false, block)
    end.

End DecodeHex.

(** A deserializer for closed examples: the structure is a single byte. *)
Definition read_one_byte (data : list Z) : option (Z * list Z) :=
  match data with
  | b :: rest => Some (b, rest)
  | [] => None
  end.

(** ** Notions used in the statements *)

(** The value of a little-endian field: byte [i] weighs [2^(8*i)]. *)
Fixpoint le_value (field : list Z) : Z :=
  match field with
  | [] => 0
  | b :: field' => Z.lor b (Z.shiftl (le_value field') 8)
  end.

(** What the loop keeps true of its counters between two words: a PUSHDATA
    field width is only ever set together with a pending push of that many
    bytes. *)
Definition counters_ok (st : state) : Prop :=
  push_data_size st = 0
  \/ (push_data_size st = next_push_size st
      /\ (next_push_size st = 1 \/ next_push_size st = 2
          \/ next_push_size st = 4)).

(** [needle] occurs in [hay]. *)
Fixpoint contains (hay needle : string) : bool :=
  String.prefix needle hay
  || match hay with
     | EmptyString => false
     | String _ hay' => contains hay' needle
     end.

Definition no_sep (w : string) : bool := all w (fun c => negb (is_sep c)).

(** The pattern -?[0-9]+ . *)
Definition matches_decimal (w : string) : bool :=
  match w with
  | String "-" w' => negb (String.eqb w' "") && all w' is_digit
  | _ => negb (String.eqb w "") && all w is_digit
  end.

(** *** What the table of names is assumed to look like

    An opcode the table holds is named in one of two ways: by the numeral of
    a small number ([-1], [1] .. [16]) whose opcode it is, or by OP_ followed
    by a mnemonic that is one word and that none of the first three rules of
    [emit] takes.  Names of different opcodes differ. *)
Definition known_op (GetOpName : Z -> string) (FIRST_UNDEFINED_OP_VALUE : Z)
    (op : Z) : bool :=
  (OP_PUSHDATA1 <=? op) && (op <? FIRST_UNDEFINED_OP_VALUE)
  && negb (String.eqb (GetOpName op) "OP_UNKNOWN").

Definition small_numbers : list Z := -1 :: seqZ 1 16.

Definition small_number_name (name : string) (op : Z) : bool :=
  existsb (fun n => String.eqb name (pretty n) && (op =? n + (OP_1 - 1)))
          small_numbers.

Definition mnemonic_name (name : string) : bool :=
  let rest := str_drop 3 name in
  starts_with name "OP_"
  && negb (String.eqb rest "") && no_sep rest
  && negb (is_number_word rest) && negb (is_hex_word rest)
  && negb (is_quoted_word rest) && negb (starts_with rest "OP_").

Fixpoint distinct (names : list string) : bool :=
  match names with
  | [] => true
  | n :: names' => negb (existsb (String.eqb n) names') && distinct names'
  end.

Definition known_ops (GetOpName : Z -> string) (FIRST_UNDEFINED_OP_VALUE : Z)
    : list Z :=
  List.filter (known_op GetOpName FIRST_UNDEFINED_OP_VALUE)
              (seqZ 0 FIRST_UNDEFINED_OP_VALUE).

Definition table_ok (GetOpName : Z -> string) (FIRST_UNDEFINED_OP_VALUE : Z)
    : bool :=
  forallb (fun op => small_number_name (GetOpName op) op
                     || mnemonic_name (GetOpName op))
          (known_ops GetOpName FIRST_UNDEFINED_OP_VALUE)
  && distinct (List.map GetOpName
                 (known_ops GetOpName FIRST_UNDEFINED_OP_VALUE)).

(** The width of the length field that follows a PUSHDATA opcode (the
    [switch] of lines 163-175); 0 for any other byte. *)
Definition pushdata_width (op : Z) : Z :=
  if op =? OP_PUSHDATA1 then 1
  else if op =? OP_PUSHDATA2 then 2
  else if op =? OP_PUSHDATA4 then 4
  else 0.

(** *** Readings that the code does not bear out

    The word [w], coming after the words [pre] of the input [s], meets the
    pending push exactly and leaves no push pending. *)
Definition met_push_clears (GetOpName : Z -> string)
    (FIRST_UNDEFINED_OP_VALUE : Z) (s : string) (pre : list string)
    (w : string) : Prop :=
  forall st result',
    ParseWords GetOpName FIRST_UNDEFINED_OP_VALUE s initial_state pre = inr st ->
    next_push_size st <> 0 ->
    emit GetOpName FIRST_UNDEFINED_OP_VALUE s (result st) w = inr result' ->
    Z.of_nat (length result') - Z.of_nat (length (result st))
    = next_push_size st ->
    exists st',
      step GetOpName FIRST_UNDEFINED_OP_VALUE s st w = inr st'
      /\ next_push_size st' = 0.

(** A word processed while a push is pending sets no expectation by the
    bytes it writes. *)
Definition pending_word_sets_nothing (GetOpName : Z -> string)
    (FIRST_UNDEFINED_OP_VALUE : Z) (s : string) (pre : list string)
    (w : string) : Prop :=
  forall st st',
    ParseWords GetOpName FIRST_UNDEFINED_OP_VALUE s initial_state pre = inr st ->
    next_push_size st <> 0 ->
    step GetOpName FIRST_UNDEFINED_OP_VALUE s st w = inr st' ->
    next_push_size st' = 0.


(** Whatever [ParseScript] throws on [s] has [s] in its message. *)
Definition error_carries_input (GetOpName : Z -> string)
    (FIRST_UNDEFINED_OP_VALUE : Z) (s : string) : Prop :=
  forall e,
    ParseScript GetOpName FIRST_UNDEFINED_OP_VALUE s = inl e ->
    contains e s = true.

(** The opcode [op] is entered in [mapOpNames] under the key [k]. *)
Definition names (GetOpName : Z -> string) (k : string) (op : Z) : Prop :=
  OP_PUSHDATA1 <= op /\ GetOpName op <> "OP_UNKNOWN"%string
  /\ (k = GetOpName op \/ k = replace_first (GetOpName op) "OP_" "").

(** ** ParseHashUV, ParseHashStr and ParseHexUV *)

(** [UniValue] (the univalue library) as far as these functions look at it:
    the kind of the value and the text it holds; only [isStr] and
    [getValStr] are called. *)
Inductive VType : Type := VNULL | VOBJ | VARR | VSTR | VNUM | VBOOL.

Record UniValue : Type := mkUniValue {
  typ : VType;
  val : string
}.

Definition isStr (v : UniValue) : bool :=
  match typ v with
  | VSTR => true
  | _ => false
  end.

Definition getValStr (v : UniValue) : string := val v.

(** The message of lines 229 and 242. *)
Definition not_hex_msg (strName strHex : string) : string :=
  strName +:+ " must be hexadecimal string (not '" +:+ strHex +:+ "')".

Section ParseHash.

(** [uint256] and its [SetHex] (uint256.h) are outside the sources. *)
Variable uint256 : Type.
Variable SetHex : string -> uint256.

Definition ParseHashStr (strHex strName : string) : string + uint256 :=
  if negb (IsHex strHex) then inl (not_hex_msg strName strHex)
  else inr (SetHex strHex).

Definition ParseHashUV (v : UniValue) (strName : string) : string + uint256 :=
  let strHex := if isStr v then getValStr v else EmptyString in
  ParseHashStr strHex strName.

End ParseHash.

Definition ParseHexUV (v : UniValue) (strName : string) : string + list Z :=
  let strHex := if isStr v then getValStr v else EmptyString in
  if negb (IsHex strHex) then inl (not_hex_msg strName strHex)
  else inr (ParseHex strHex).

(** ** Further notions used in the statements *)

Definition nonempty (w : string) : bool := negb (String.eqb w "").

(** The words the loop of [ParseScript] does not skip. *)
Definition tokens (s : string) : list string :=
  List.filter nonempty (split s).

(** The first word of [split], and the words after it. *)
Fixpoint head_word (s : string) : string :=
  match s with
  | EmptyString => EmptyString
  | String c s' => if is_sep c then EmptyString else String c (head_word s')
  end.

Fixpoint tail_words (s : string) : list string :=
  match s with
  | EmptyString => []
  | String c s' => if is_sep c then split_from true s' else tail_words s'
  end.

(** The state [st] with the script [r] written before it. *)
Definition prepend (r : list Z) (st : state) : state :=
  mkState (r ++ result st) (next_push_size st) (push_data_size st).

(** No push is pending. *)
Definition idle (st : state) : Prop :=
  next_push_size st = 0 /\ push_data_size st = 0.

Definition is_byte (b : Z) : Prop := 0 <= b < 256.

(** Two outcomes of [ParseScript] on the inputs [s1] and [s2] that agree
    but for the input named in the parse error. *)
Definition same_outcome {A : Type} (s1 s2 : string) (x y : string + A)
    : Prop :=
  match x, y with
  | inr a, inr b => a = b
  | inl e1, inl e2 =>
      e1 = e2 \/ (e1 = parse_error_msg s1 /\ e2 = parse_error_msg s2)
  | _, _ => False
  end.

(** ** Examples *)

Example split_ex : split " a  b " = [""; "a"; "b"; ""]%string.
Proof. reflexivity. Qed.

Example sampleParseScript_ex1 :
  sampleParseScript "1 ADD OP_DUP 0x00" = inr [81; 147; 118; 0].
Proof. vm_compute. reflexivity. Qed.

Example sampleParseScript_ex2 :
  sampleParseScript " 1000  -5 " = inr [2; 232; 3; 1; 133].
Proof. vm_compute. reflexivity. Qed.

Example sampleParseScript_ex3 :
  sampleParseScript "bogus_token_xyz"
  = inl "Error parsing script: bogus_token_xyz"%string.
Proof. vm_compute. reflexivity. Qed.

Example sampleParseScript_ex4 : sampleParseScript "  " = inr [].
Proof. vm_compute. reflexivity. Qed.

Example sample_table_ok : table_ok sampleOpName sampleFirstUndefined = true.
Proof. vm_compute. reflexivity. Qed.

Example le_value_ex : le_value [52; 18] = 4660.
Proof. reflexivity. Qed.

(** ** The loop and its counters *)

Section Loop.

Variable GetOpName : Z -> string.
Variable FIRST_UNDEFINED_OP_VALUE : Z.

Local Abbreviation emit := (emit GetOpName FIRST_UNDEFINED_OP_VALUE).
Local Abbreviation step := (step GetOpName FIRST_UNDEFINED_OP_VALUE).
Local Abbreviation ParseWords := (ParseWords GetOpName FIRST_UNDEFINED_OP_VALUE).
Local Abbreviation ParseScript := (ParseScript GetOpName FIRST_UNDEFINED_OP_VALUE).

(** Every rule appends: what a word writes does not depend on the script
    before it. *)
Lemma emit_appends s r w :
  emit s r w = match emit s [] w with
               | inl e => inl e
               | inr bs => inr (r ++ bs)
               end.
Proof.
  unfold emit, push_int64, push_data, push_opcode.
  repeat case_match; simplify_eq; try reflexivity.
Qed.

Lemma emit_inr_app s r w r' :
  emit s r w = inr r' -> exists bs, r' = r ++ bs /\ emit s [] w = inr bs.
Proof.
  rewrite emit_appends. destruct (emit s [] w) as [e|bs]; [discriminate|].
  intros [= <-]. eauto.
Qed.

Lemma ParseWords_app s st pre post :
  ParseWords s st (pre ++ post)
  = match ParseWords s st pre with
    | inl e => inl e
    | inr st' => ParseWords s st' post
    end.
Proof.
  revert st. induction pre as [|w pre IH]; intros st; simpl; [reflexivity|].
  destruct (step s st w); [reflexivity | apply IH].
Qed.

Lemma ParseWords_empty_words s st post :
  Forall (fun w => w = EmptyString) post -> ParseWords s st post = inr st.
Proof.
  induction 1 as [|w post -> _ IH]; simpl; [reflexivity | exact IH].
Qed.

(** A throw in the loop is what [ParseScript] throws. *)
Lemma ParseScript_throws_at s pre w post st e :
  split s = pre ++ w :: post ->
  ParseWords s initial_state pre = inr st ->
  step s st w = inl e ->
  ParseScript s = inl e.
Proof.
  intros Hs Hpre Hw. unfold ParseScript.
  rewrite Hs, ParseWords_app, Hpre. simpl. rewrite Hw. reflexivity.
Qed.

Lemma next_result st r' st' : next st r' = inr st' -> result st' = r'.
Proof.
  unfold next, inspect_opcode. intros H.
  repeat case_match; simplify_eq; reflexivity.
Qed.

Lemma next_counters_ok st r' st' :
  counters_ok st -> next st r' = inr st' -> counters_ok st'.
Proof.
  unfold counters_ok, next, inspect_opcode, read_push_field.
  intros Hok H.
  repeat case_match; simplify_eq; simpl in *; lia.
Qed.

Lemma step_counters_ok s st w st' :
  counters_ok st -> step s st w = inr st' -> counters_ok st'.
Proof.
  unfold step. intros Hok H.
  destruct (String.eqb w ""); [by simplify_eq|].
  destruct (emit s (result st) w) as [e|r']; [discriminate|].
  eapply next_counters_ok; eauto.
Qed.

Lemma ParseWords_counters_ok s words : forall st st',
  counters_ok st -> ParseWords s st words = inr st' -> counters_ok st'.
Proof.
  induction words as [|w words IH]; simpl; intros st st' Hok H.
  - by simplify_eq.
  - destruct (step s st w) as [e|st1] eqn:Hw; [discriminate|].
    eapply IH; [|exact H]. eapply step_counters_ok; eauto.
Qed.

Lemma reachable_counters_ok s words st :
  ParseWords s initial_state words = inr st -> counters_ok st.
Proof.
  apply ParseWords_counters_ok. left. reflexivity.
Qed.

End Loop.

(** ** Reading back a length field *)

Lemma byte_at_app (r bs : list Z) (i : nat) :
  byte_at (r ++ bs) (length r + i) = nth i bs 0.
Proof.
  unfold byte_at. rewrite app_nth2 by lia. f_equal. lia.
Qed.

Lemma byte_at_app_0 (r bs : list Z) :
  byte_at (r ++ bs) (length r) = nth 0 bs 0.
Proof.
  rewrite <- (Nat.add_0_r (length r)) at 1. apply byte_at_app.
Qed.

Lemma ReadLE16_app r b0 b1 :
  ReadLE16 (r ++ [b0; b1]) (length r) = le_value [b0; b1].
Proof.
  unfold ReadLE16. rewrite byte_at_app_0, byte_at_app. simpl.
  rewrite Z.shiftl_0_l, Z.lor_0_r. reflexivity.
Qed.

Lemma ReadLE32_app r b0 b1 b2 b3 :
  ReadLE32 (r ++ [b0; b1; b2; b3]) (length r) = le_value [b0; b1; b2; b3].
Proof.
  unfold ReadLE32. rewrite byte_at_app_0, !byte_at_app.
  cbn [nth le_value].
  rewrite Z.shiftl_0_l, Z.lor_0_r.
  rewrite !Z.shiftl_lor, !Z.shiftl_shiftl by lia.
  rewrite !Z.lor_assoc. reflexivity.
Qed.

Lemma read_push_field_le_value r bs k :
  k = 1 \/ k = 2 \/ k = 4 ->
  Z.of_nat (length bs) = k ->
  read_push_field (r ++ bs) (length r) k k = (le_value bs, 0).
Proof.
  unfold read_push_field.
  intros [ -> | [ -> | -> ] ] Hlen; simpl.
  - destruct bs as [|b0 [|? ?]]; simpl in Hlen; try lia.
    rewrite byte_at_app_0. simpl.
    rewrite Z.shiftl_0_l, Z.lor_0_r. reflexivity.
  - destruct bs as [|b0 [|b1 [|? ?]]]; simpl in Hlen; try lia.
    rewrite ReadLE16_app. reflexivity.
  - destruct bs as [|b0 [|b1 [|b2 [|b3 [|? ?]]]]]; simpl in Hlen; try lia.
    rewrite ReadLE32_app. reflexivity.
Qed.

(** A field of bytes is the number it spells, least significant byte
    first. *)
Lemma le_value_cons b field :
  0 <= b < 256 -> 0 <= le_value field ->
  le_value (b :: field) = b + 256 * le_value field.
Proof.
  intros Hb Hf. simpl.
  rewrite Z.shiftl_mul_pow2 by lia.
  change (2 ^ 8) with 256.
  rewrite <- Z.lxor_lor, <- Z.add_nocarry_lxor; [lia| |].
  all: apply Z.bits_inj'; intros n Hn; rewrite Z.land_spec, Z.bits_0;
    destruct (Z.lt_ge_cases n 8) as [Hlt|Hge].
  all: try (replace (le_value field * 256) with (le_value field * 2 ^ 8) by lia;
            rewrite (Z.mul_pow2_bits_low _ 8 n) by lia; apply andb_false_r).
  all: rewrite (Z.bits_above_log2 b n); [reflexivity| lia |].
  all: destruct (Z.eq_dec b 0) as [->|]; [simpl; lia|];
    apply Z.log2_lt_pow2; [lia|];
    apply Z.lt_le_trans with (2 ^ 8); [simpl; lia | apply Z.pow_le_mono_r; lia].
Qed.

(** ** The end of the loop body *)

Lemma size_change_app (r bs : list Z) :
  Z.of_nat (length (r ++ bs)) - Z.of_nat (length r) = Z.of_nat (length bs).
Proof. rewrite length_app. lia. Qed.

(** With a push pending the word must bring exactly that many bytes; the
    only expectation it can leave is the one spelled by a PUSHDATA field. *)
Lemma next_pending st bs :
  counters_ok st -> next_push_size st <> 0 ->
  next st (result st ++ bs)
  = if Z.of_nat (length bs) =? next_push_size st then
      inr (mkState (result st ++ bs)
             (if push_data_size st =? 0 then 0 else le_value bs) 0)
    else inl (push_error_msg (next_push_size st) (Z.of_nat (length bs))).
Proof.
  intros Hok Hne. unfold next. rewrite size_change_app.
  destruct (Z.eqb_spec (next_push_size st) 0) as [|_]; [contradiction|].
  destruct (Z.eqb_spec (Z.of_nat (length bs)) (next_push_size st)) as [Heq|Hd];
    simpl; [|reflexivity].
  unfold inspect_opcode.
  destruct (Z.eqb_spec (next_push_size st) 0) as [|_]; [contradiction|].
  simpl.
  destruct (Z.eqb_spec (push_data_size st) 0) as [Hz|Hnz].
  - unfold read_push_field. rewrite Hz.
    rewrite andb_false_r. reflexivity.
  - destruct Hok as [|[Hpd Hk]]; [contradiction|].
    rewrite Hpd, read_push_field_le_value by (auto; lia). reflexivity.
Qed.

(** With no push pending nothing is checked, and the state is what the
    inspection of the last byte makes it. *)
Lemma next_idle st bs :
  counters_ok st -> next_push_size st = 0 ->
  next st (result st ++ bs)
  = inr (inspect_opcode (result st ++ bs) 0 (Z.of_nat (length bs)) (0, 0)).
Proof.
  intros Hok Hz. unfold next. rewrite size_change_app, Hz. simpl.
  assert (push_data_size st = 0) as -> by (destruct Hok; lia).
  reflexivity.
Qed.

(** ** Push bookkeeping across words *)

Section Bookkeeping.

Variable GetOpName : Z -> string.
Variable FIRST_UNDEFINED_OP_VALUE : Z.

Local Abbreviation emit := (emit GetOpName FIRST_UNDEFINED_OP_VALUE).
Local Abbreviation step := (step GetOpName FIRST_UNDEFINED_OP_VALUE).
Local Abbreviation ParseWords :=
  (ParseWords GetOpName FIRST_UNDEFINED_OP_VALUE).
Local Abbreviation ParseScript :=
  (ParseScript GetOpName FIRST_UNDEFINED_OP_VALUE).

Lemma step_nonempty s st w r' :
  w <> EmptyString -> emit s (result st) w = inr r' ->
  step s st w = next st r'.
Proof.
  intros Hw He. unfold step.
  destruct (String.eqb_spec w ""); [contradiction|].
  rewrite He. reflexivity.
Qed.

Lemma ParseWords_snoc s pre w st st' :
  ParseWords s initial_state pre = inr st ->
  step s st w = inr st' ->
  ParseWords s initial_state (pre ++ [w]) = inr st'.
Proof.
  intros Hpre Hw. rewrite ParseWords_app, Hpre. simpl. rewrite Hw.
  reflexivity.
Qed.

Lemma step_pending s st w bs :
  counters_ok st -> w <> EmptyString -> next_push_size st <> 0 ->
  emit s (result st) w = inr (result st ++ bs) ->
  step s st w
  = if Z.of_nat (length bs) =? next_push_size st then
      inr (mkState (result st ++ bs)
             (if push_data_size st =? 0 then 0 else le_value bs) 0)
    else inl (push_error_msg (next_push_size st) (Z.of_nat (length bs))).
Proof.
  intros Hok Hw Hne He.
  rewrite (step_nonempty _ _ _ _ Hw He). apply next_pending; assumption.
Qed.

Lemma step_idle s st w bs :
  counters_ok st -> w <> EmptyString -> next_push_size st = 0 ->
  emit s (result st) w = inr (result st ++ bs) ->
  step s st w
  = inr (inspect_opcode (result st ++ bs) 0 (Z.of_nat (length bs)) (0, 0)).
Proof.
  intros Hok Hw Hz He.
  rewrite (step_nonempty _ _ _ _ Hw He). apply next_idle; assumption.
Qed.

(** C1 (as amended): when the words before [w] leave a push of N <> 0 bytes
    pending and [w] writes the bytes [bs], then a [bs] of another length
    makes [ParseScript] throw the push-size message with N and the length
    of [bs]; a [bs] of length N is accepted, and the expectation is then
    cleared if no PUSHDATA field width was pending, and otherwise becomes
    the value that [bs] spells as a little-endian field. *)
Theorem push_size_enforced s pre w post st result' :
  split s = pre ++ w :: post ->
  w <> EmptyString ->
  ParseWords s initial_state pre = inr st ->
  next_push_size st <> 0 ->
  emit s (result st) w = inr result' ->
  exists bs,
    result' = result st ++ bs
    /\ (Z.of_nat (length bs) <> next_push_size st ->
        ParseScript s
        = inl (push_error_msg (next_push_size st) (Z.of_nat (length bs))))
    /\ (Z.of_nat (length bs) = next_push_size st ->
        exists st',
          ParseWords s initial_state (pre ++ [w]) = inr st'
          /\ result st' = result'
          /\ push_data_size st' = 0
          /\ (push_data_size st = 0 -> next_push_size st' = 0)
          /\ (push_data_size st <> 0 -> next_push_size st' = le_value bs)).
Proof.
  intros Hs Hw Hpre Hne He.
  destruct (emit_inr_app _ _ _ _ _ _ He) as (bs & -> & _).
  exists bs. split; [reflexivity|].
  pose proof (reachable_counters_ok _ _ _ _ _ Hpre) as Hok.
  pose proof (step_pending _ _ _ _ Hok Hw Hne He) as Hstep.
  split; intros Hlen.
  - eapply ParseScript_throws_at; eauto.
    rewrite Hstep. destruct (Z.eqb_spec (Z.of_nat (length bs))
                               (next_push_size st)); [contradiction|].
    reflexivity.
  - rewrite Hlen, Z.eqb_refl in Hstep.
    eexists. split; [eapply ParseWords_snoc; eauto|]. simpl.
    repeat split.
    + intros ->. reflexivity.
    + intros Hd. destruct (Z.eqb_spec (push_data_size st) 0);
        [contradiction | reflexivity].
Qed.


(** C4 (as amended): for a word [w] that writes the bytes [bs] after the
    words [pre]: (a) with no push pending, if [bs] is a single byte [b]
    below OP_PUSHDATA1, the push expected next is [b], and when [b] is not
    0 a next word that writes another number of bytes is refused with the
    push-size message; (b) if [bs] is not a single byte, or a push was
    pending, the byte is not looked at as an opcode: the push expected next
    is 0, unless a PUSHDATA field width was pending with the push, in which
    case it is the value [bs] spells as a little-endian field. *)
Theorem single_byte_inspected s pre w st result' :
  ParseWords s initial_state pre = inr st ->
  w <> EmptyString ->
  emit s (result st) w = inr result' ->
  exists bs,
    result' = result st ++ bs
    /\ (next_push_size st = 0 ->
        forall b, bs = [b] -> b < OP_PUSHDATA1 ->
        exists st',
          step s st w = inr st'
          /\ result st' = result'
          /\ next_push_size st' = b
          /\ push_data_size st' = 0
          /\ (b <> 0 ->
              forall w2 result2,
                w2 <> EmptyString ->
                emit s result' w2 = inr result2 ->
                Z.of_nat (length result2) - Z.of_nat (length result') <> b ->
                step s st' w2
                = inl (push_error_msg b
                         (Z.of_nat (length result2)
                          - Z.of_nat (length result')))))
    /\ (Z.of_nat (length bs) <> 1 \/ next_push_size st <> 0 ->
        forall st',
          step s st w = inr st' ->
          next_push_size st'
          = if (next_push_size st =? 0) || (push_data_size st =? 0) then 0
            else le_value bs).
Proof.
  intros Hpre Hw He.
  destruct (emit_inr_app _ _ _ _ _ _ He) as (bs & -> & _).
  exists bs. split; [reflexivity|].
  pose proof (reachable_counters_ok _ _ _ _ _ Hpre) as Hok.
  split.
  - intros Hz b -> Hb.
    exists (mkState (result st ++ [b]) b 0).
    assert (Hst : step s st w = inr (mkState (result st ++ [b]) b 0)).
    { rewrite (step_idle _ _ _ _ Hok Hw Hz He). f_equal.
      unfold inspect_opcode. simpl. rewrite List.last_last.
      destruct (Z.ltb_spec b OP_PUSHDATA1); [reflexivity | lia]. }
    split; [exact Hst|]. simpl. repeat split.
    intros Hb0 w2 result2 Hw2 He2 Hd.
    destruct (emit_inr_app _ _ _ _ _ _ He2) as (bs2 & -> & _).
    rewrite size_change_app in *.
    assert (Hok' : counters_ok (mkState (result st ++ [b]) b 0))
      by (left; reflexivity).
    rewrite (step_pending s _ w2 bs2 Hok' Hw2 Hb0 He2). simpl.
    destruct (Z.eqb_spec (Z.of_nat (length bs2)) b);
      [contradiction | reflexivity].
  - intros Hcase st' Hst.
    destruct (Z.eqb_spec (next_push_size st) 0) as [Hz|Hnz]; simpl.
    + rewrite (step_idle _ _ _ _ Hok Hw Hz He) in Hst.
      destruct Hcase as [Hlen|]; [|contradiction].
      unfold inspect_opcode in Hst. simpl in Hst.
      destruct (Z.eqb_spec (Z.of_nat (length bs)) 1); [contradiction|].
      by simplify_eq.
    + rewrite (step_pending _ _ _ _ Hok Hw Hnz He) in Hst.
      destruct (Z.of_nat (length bs) =? next_push_size st);
        [|discriminate].
      by simplify_eq.
Qed.

Lemma ParseScript_returns_result s st :
  ParseWords s initial_state (split s) = inr st ->
  ParseScript s = inr (result st).
Proof. unfold ParseScript. intros ->. reflexivity. Qed.

(** C10: when the last word of the input is accepted and leaves a push
    pending, [ParseScript] returns the script written so far; nothing after
    the loop looks at the pending push. *)
Theorem unmet_push_at_end s pre w post st st' :
  split s = pre ++ w :: post ->
  Forall (fun w' => w' = EmptyString) post ->
  ParseWords s initial_state pre = inr st ->
  step s st w = inr st' ->
  next_push_size st' <> 0 ->
  ParseScript s = inr (result st').
Proof.
  intros Hs Hpost Hpre Hw _.
  apply ParseScript_returns_result.
  rewrite Hs, ParseWords_app, Hpre. simpl. rewrite Hw.
  apply ParseWords_empty_words. exact Hpost.
Qed.

End Bookkeeping.

(** *** Closed instances *)

Lemma push_size_enforced_witness :
  split "0x02 0x01" = ["0x02"; "0x01"]%string
  /\ ParseWords sampleOpName sampleFirstUndefined "0x02 0x01" initial_state
       ["0x02"%string] = inr (mkState [2] 2 0)
  /\ emit sampleOpName sampleFirstUndefined "0x02 0x01" [2] "0x01"
     = inr [2; 1]
  /\ sampleParseScript "0x02 0x01" = inl (push_error_msg 2 1).
Proof.
  assert (Hs : split "0x02 0x01" = ["0x02"%string] ++ "0x01"%string :: [])
    by reflexivity.
  assert (Hpre : ParseWords sampleOpName sampleFirstUndefined "0x02 0x01"
                   initial_state ["0x02"%string] = inr (mkState [2] 2 0))
    by (vm_compute; reflexivity).
  assert (He : emit sampleOpName sampleFirstUndefined "0x02 0x01"
                 (result (mkState [2] 2 0)) "0x01" = inr [2; 1])
    by (vm_compute; reflexivity).
  split; [exact Hs|]. split; [exact Hpre|]. split; [exact He|].
  destruct (push_size_enforced sampleOpName sampleFirstUndefined
              "0x02 0x01" ["0x02"%string] "0x01" [] (mkState [2] 2 0) [2; 1]
              Hs ltac:(discriminate) Hpre ltac:(discriminate) He)
    as (bs & Hbs & Hbad & _).
  simpl in Hbs. injection Hbs as <-. apply Hbad. discriminate.
Defined.

(** C1 (as stated), refuted: in "0x4c 0x05" the first word leaves a push
    of one byte pending, the second writes exactly one byte, and the push
    then expected is 5, not none. *)
Lemma met_push_not_cleared :
  ~ met_push_clears sampleOpName sampleFirstUndefined
      "0x4c 0x05" ["0x4c"%string] "0x05".
Proof.
  intros H.
  destruct (H (mkState [76] 1 1) [76; 5]) as (st' & Hst & Hz);
    try (vm_compute; reflexivity); try discriminate.
  vm_compute in Hst. injection Hst as <-. discriminate.
Qed.


Lemma single_byte_inspected_witness :
  ParseWords sampleOpName sampleFirstUndefined "1 0x03 'abc'" initial_state
    ["1"%string] = inr (mkState [81] 0 0)
  /\ emit sampleOpName sampleFirstUndefined "1 0x03 'abc'" [81] "0x03"
     = inr [81; 3]
  /\ exists st',
       step sampleOpName sampleFirstUndefined "1 0x03 'abc'"
         (mkState [81] 0 0) "0x03" = inr st'
       /\ next_push_size st' = 3
       /\ step sampleOpName sampleFirstUndefined "1 0x03 'abc'" st' "'abc'"
          = inl (push_error_msg 3 4).
Proof.
  assert (Hpre : ParseWords sampleOpName sampleFirstUndefined "1 0x03 'abc'"
                   initial_state ["1"%string] = inr (mkState [81] 0 0))
    by (vm_compute; reflexivity).
  assert (He : emit sampleOpName sampleFirstUndefined "1 0x03 'abc'"
                 (result (mkState [81] 0 0)) "0x03" = inr [81; 3])
    by (vm_compute; reflexivity).
  assert (He2 : emit sampleOpName sampleFirstUndefined "1 0x03 'abc'"
                  [81; 3] "'abc'" = inr [81; 3; 3; 97; 98; 99])
    by (vm_compute; reflexivity).
  split; [exact Hpre|]. split; [exact He|].
  destruct (single_byte_inspected sampleOpName sampleFirstUndefined
              "1 0x03 'abc'" ["1"%string] "0x03" (mkState [81] 0 0) [81; 3]
              Hpre ltac:(discriminate) He)
    as (bs & Hbs & Hone & _).
  simpl in Hbs. injection Hbs as <-.
  destruct (Hone eq_refl 3 eq_refl eq_refl) as (st' & H1 & H2 & H3 & H4 & H5).
  exists st'. split; [exact H1|]. split; [exact H3|].
  exact (H5 ltac:(discriminate) "'abc'"%string [81; 3; 3; 97; 98; 99]
            ltac:(discriminate) He2 ltac:(discriminate)).
Defined.

(** C4 (as stated), refuted: in "OP_PUSHDATA1 0x02" the second word is
    processed with a push pending and writes one byte, and the push then
    expected is the value of that byte. *)
Lemma pending_word_sets_push :
  ~ pending_word_sets_nothing sampleOpName sampleFirstUndefined
      "OP_PUSHDATA1 0x02" ["OP_PUSHDATA1"%string] "0x02".
Proof.
  intros H.
  assert (Hz : next_push_size (mkState [76; 2] 2 0) = 0).
  { apply (H (mkState [76] 1 1)); try (vm_compute; reflexivity).
    discriminate. }
  discriminate.
Qed.

Lemma unmet_push_at_end_witness :
  split "0x4c 0x05 " = ["0x4c"; "0x05"; ""]%string
  /\ step sampleOpName sampleFirstUndefined "0x4c 0x05 " (mkState [76] 1 1)
       "0x05" = inr (mkState [76; 5] 5 0)
  /\ sampleParseScript "0x4c 0x05 " = inr [76; 5].
Proof.
  assert (Hs : split "0x4c 0x05 "
               = ["0x4c"%string] ++ "0x05"%string :: [""%string])
    by reflexivity.
  assert (Hpre : ParseWords sampleOpName sampleFirstUndefined "0x4c 0x05 "
                   initial_state ["0x4c"%string] = inr (mkState [76] 1 1))
    by (vm_compute; reflexivity).
  assert (Hw : step sampleOpName sampleFirstUndefined "0x4c 0x05 "
                 (mkState [76] 1 1) "0x05" = inr (mkState [76; 5] 5 0))
    by (vm_compute; reflexivity).
  assert (Hpost : Forall (fun w' : string => w' = EmptyString) [""%string])
    by (repeat constructor).
  split; [exact Hs|]. split; [exact Hw|].
  exact (unmet_push_at_end sampleOpName sampleFirstUndefined "0x4c 0x05 "
           ["0x4c"%string] "0x05" [""%string] (mkState [76] 1 1)
           (mkState [76; 5] 5 0) Hs
           Hpost Hpre Hw
           ltac:(discriminate)).
Defined.

(** The three ways of the claim in which an input ends on an unmet push. *)
Example ends_on_direct_push : sampleParseScript "0x05" = inr [5].
Proof. vm_compute. reflexivity. Qed.

Example ends_on_pushdata_opcode :
  sampleParseScript "OP_PUSHDATA2" = inr [77].
Proof. vm_compute. reflexivity. Qed.

Example ends_on_length_field :
  sampleParseScript "PUSHDATA1 0xff" = inr [76; 255].
Proof. vm_compute. reflexivity. Qed.

(** ** Single words *)

Lemma split_from_no_sep w : no_sep w = true -> split_from false w = [w].
Proof.
  unfold no_sep. induction w as [|c w IH]; simpl; [reflexivity|].
  intros [Hc Hw]%andb_prop.
  apply negb_true_iff in Hc. rewrite Hc, (IH Hw). reflexivity.
Qed.

Lemma split_one_word w : no_sep w = true -> split w = [w].
Proof. apply split_from_no_sep. Qed.

Lemma append_cons c a b : String c a +:+ b = String c (a +:+ b).
Proof. reflexivity. Qed.

Lemma append_nil b : "" +:+ b = b.
Proof. reflexivity. Qed.

Lemma prefix_cons a s1 b s2 :
  String.prefix (String a s1) (String b s2)
  = if Ascii.eqb a b then String.prefix s1 s2 else false.
Proof.
  cbn [String.prefix].
  destruct (ascii_dec a b) as [->|Hne].
  - rewrite Ascii.eqb_refl. reflexivity.
  - destruct (Ascii.eqb_spec a b); [contradiction | reflexivity].
Qed.

Lemma prefix_refl s : String.prefix s s = true.
Proof.
  induction s as [|c s IH]; simpl; [reflexivity|].
  destruct (ascii_dec c c); [exact IH | contradiction].
Qed.

Lemma contains_append p s : contains (p +:+ s) s = true.
Proof.
  induction p as [|c p IH]; simpl.
  - destruct s; simpl; [reflexivity|].
    rewrite (proj2 (orb_true_iff _ _)); [reflexivity|]. left.
    apply (prefix_refl (String _ _)).
  - rewrite IH. apply orb_true_r.
Qed.

Section Words.

Variable GetOpName : Z -> string.
Variable FIRST_UNDEFINED_OP_VALUE : Z.

Local Abbreviation emit := (emit GetOpName FIRST_UNDEFINED_OP_VALUE).
Local Abbreviation step := (step GetOpName FIRST_UNDEFINED_OP_VALUE).
Local Abbreviation ParseWords :=
  (ParseWords GetOpName FIRST_UNDEFINED_OP_VALUE).
Local Abbreviation ParseScript :=
  (ParseScript GetOpName FIRST_UNDEFINED_OP_VALUE).

(** An input that is one word: the script is what the word writes. *)
Lemma ParseScript_one_word w :
  no_sep w = true -> w <> EmptyString ->
  ParseScript w = emit w [] w.
Proof.
  intros Hsep Hw. unfold ParseScript.
  rewrite (split_one_word _ Hsep). simpl.
  unfold step. destruct (String.eqb_spec w ""); [contradiction|].
  simpl. destruct (emit w [] w) as [e|r]; [reflexivity|].
  destruct (next initial_state r) as [e|st] eqn:Hn.
  - unfold next in Hn. simpl in Hn. discriminate.
  - rewrite (next_result _ _ _ Hn). reflexivity.
Qed.

Lemma emit_throws s r w e :
  emit s r w = inl e -> e = hex_error_msg \/ e = parse_error_msg s.
Proof.
  unfold emit. intros H.
  repeat case_match; simplify_eq; auto.
Qed.

Lemma next_throws st r' e :
  next st r' = inl e ->
  exists n m, n <> 0 /\ m <> n /\ e = push_error_msg n m.
Proof.
  unfold next. intros H.
  destruct (Z.eqb_spec (next_push_size st) 0) as [|Hn]; [discriminate|].
  simpl in H.
  destruct (Z.eqb_spec (Z.of_nat (length r') - Z.of_nat (length (result st)))
              (next_push_size st)) as [|Hm]; [discriminate|].
  simpl in H. injection H as <-. eauto.
Qed.

Lemma ParseWords_throws s words : forall st e,
  ParseWords s st words = inl e ->
  e = parse_error_msg s \/ e = hex_error_msg
  \/ exists n m, n <> 0 /\ m <> n /\ e = push_error_msg n m.
Proof.
  induction words as [|w words IH]; simpl; intros st e H; [discriminate|].
  destruct (step s st w) as [e'|st'] eqn:Hw; [|eauto].
  injection H as ->. unfold step in Hw.
  destruct (String.eqb w ""); [discriminate|].
  destruct (emit s (result st) w) as [e'|r'] eqn:He.
  - injection Hw as ->. destruct (emit_throws _ _ _ _ He); auto.
  - right. right. eapply next_throws; eauto.
Qed.

(** C5 (as amended): whatever [ParseScript] throws on [s] is one of three
    messages: the parse error, which is a fixed text followed by the whole
    of [s]; the hex error, a fixed text that names neither [s] nor the
    word; or the push-size error, which gives the expected and the written
    byte counts and nothing else. *)
Theorem thrown_messages s e :
  ParseScript s = inl e ->
  (e = parse_error_msg s /\ contains e s = true)
  \/ e = hex_error_msg
  \/ exists n m, n <> 0 /\ m <> n /\ e = push_error_msg n m.
Proof.
  unfold ParseScript. intros H.
  destruct (ParseWords s initial_state (split s)) as [e'|st] eqn:Hp;
    [|discriminate].
  injection H as ->.
  destruct (ParseWords_throws _ _ _ _ Hp) as [->|[->|Hpush]]; auto.
  left. split; [reflexivity|]. apply contains_append.
Qed.

End Words.

Lemma thrown_messages_witness :
  sampleParseScript "DUP FOO" = inl (parse_error_msg "DUP FOO")
  /\ contains (parse_error_msg "DUP FOO") "DUP FOO" = true.
Proof.
  assert (H : sampleParseScript "DUP FOO" = inl (parse_error_msg "DUP FOO"))
    by (vm_compute; reflexivity).
  split; [exact H|].
  destruct (thrown_messages sampleOpName sampleFirstUndefined "DUP FOO"
              (parse_error_msg "DUP FOO") H)
    as [[_ Hc]|[Hhex|(n & m & _ & _ & Hpush)]].
  - exact Hc.
  - discriminate Hhex.
  - exfalso. vm_compute in Hpush. discriminate Hpush.
Defined.

(** C5 (as stated), refuted: on "0xg" the message thrown does not have the
    input in it (nor does it name the word, which is the whole input). *)
Lemma hex_error_omits_input :
  ~ error_carries_input sampleOpName sampleFirstUndefined "0xg".
Proof.
  intros H. specialize (H hex_error_msg).
  assert (Hc : contains hex_error_msg "0xg" = true)
    by (apply H; vm_compute; reflexivity).
  vm_compute in Hc. discriminate.
Qed.

Example push_error_omits_input :
  sampleParseScript "0x01 0x0000"
  = inl "Wrong number of bytes being pushed. Expected:1 Pushed:2"%string.
Proof. vm_compute. reflexivity. Qed.

(** ** The rules for literals *)

Lemma hex_digit_not_sep c : (0 <=? HexDigit c) = true -> is_sep c = false.
Proof.
  unfold HexDigit, is_sep. set (n := char_code c). intros H.
  destruct (Z.leb_spec 48 n), (Z.leb_spec n 57), (Z.leb_spec 97 n),
    (Z.leb_spec n 102), (Z.leb_spec 65 n), (Z.leb_spec n 70);
    simpl in H; try discriminate;
    destruct (Z.eqb_spec n 32), (Z.eqb_spec n 9), (Z.eqb_spec n 10);
    simpl; try reflexivity; lia.
Qed.

Lemma all_hex_no_sep d :
  all d (fun c => 0 <=? HexDigit c) = true -> no_sep d = true.
Proof.
  unfold no_sep. induction d as [|c d IH]; simpl; [reflexivity|].
  intros [Hc Hd]%andb_prop.
  rewrite (hex_digit_not_sep _ Hc), (IH Hd). reflexivity.
Qed.

Lemma IsHex_inv d :
  IsHex d = true ->
  all d (fun c => 0 <=? HexDigit c) = true
  /\ d <> EmptyString
  /\ exists n, String.length d = (2 * n)%nat.
Proof.
  unfold IsHex. intros [[Hall Hpos]%andb_prop Heven]%andb_prop.
  split; [exact Hall|]. split.
  - intros ->. discriminate.
  - apply Z.eqb_eq in Heven.
    exists (Z.to_nat (Z.of_nat (String.length d) / 2)).
    pose proof (Z.div_mod (Z.of_nat (String.length d)) 2 ltac:(lia)).
    lia.
Qed.

Lemma ParseHex_length n : forall d,
  String.length d = (2 * n)%nat ->
  all d (fun c => 0 <=? HexDigit c) = true ->
  length (ParseHex d) = n.
Proof.
  induction n as [|n IH]; intros [|c1 [|c2 d]]; simpl; intros Hlen Hall;
    try lia; try reflexivity.
  apply andb_prop in Hall as [H1 [H2 Hd]%andb_prop].
  apply Z.leb_le in H1, H2.
  destruct (Z.ltb_spec (HexDigit c1) 0); [lia|].
  destruct (Z.ltb_spec (HexDigit c2) 0); [lia|].
  simpl. f_equal. apply IH; [lia | exact Hd].
Qed.

Lemma string_length_append a b :
  String.length (a +:+ b) = (String.length a + String.length b)%nat.
Proof. induction a as [|c a IH]; simpl; [reflexivity | by rewrite IH]. Qed.

Lemma str_take_append a b : str_take (String.length a) (a +:+ b) = a.
Proof. induction a as [|c a IH]; simpl; [by destruct b | by rewrite IH]. Qed.

Lemma rev_app_quote_inv w : forall acc,
  w <> EmptyString ->
  String.prefix "'" (String.rev_app w acc) = true ->
  exists w', w = w' +:+ "'".
Proof.
  induction w as [|c w IH]; intros acc Hw H; [contradiction|].
  destruct w as [|c' w].
  - cbn [String.rev_app] in H. rewrite prefix_cons in H.
    destruct (Ascii.eqb_spec "'" c) as [<-|]; [|discriminate].
    exists EmptyString. reflexivity.
  - destruct (IH (String c acc)) as [w' Hw']; [discriminate | exact H |].
    exists (String c w'). rewrite append_cons. f_equal. exact Hw'.
Qed.

Lemma quoted_word_inv w :
  is_quoted_word w = true -> w = "'" +:+ quoted_content w +:+ "'".
Proof.
  unfold is_quoted_word, starts_with, ends_with.
  intros [[Hlen Hs]%andb_prop He]%andb_prop.
  apply Nat.leb_le in Hlen.
  destruct w as [|c w]; [simpl in Hlen; lia|].
  rewrite prefix_cons in Hs.
  destruct (Ascii.eqb_spec "'" c) as [<-|]; [|discriminate].
  destruct (rev_app_quote_inv (String "'" w) EmptyString) as [w' Hw'];
    [discriminate | exact He |].
  destruct w' as [|c' w'].
  - rewrite append_nil in Hw'. injection Hw' as ->. simpl in Hlen. lia.
  - rewrite append_cons in Hw'. injection Hw' as _ ->.
    unfold quoted_content. cbn [str_drop String.length].
    replace (S (String.length (w' +:+ "'")) - 2)%nat
      with (String.length w')
      by (rewrite string_length_append; simpl; lia).
    rewrite str_take_append. reflexivity.
Qed.

Lemma number_word_spec w :
  w <> EmptyString ->
  is_number_word w = matches_decimal w || String.eqb w "-".
Proof.
  destruct w as [|c w]; [contradiction|]. intros _.
  unfold is_number_word, matches_decimal, starts_with.
  destruct c as [[] [] [] [] [] [] [] []]; simpl;
    try (rewrite ?andb_false_r, ?orb_false_r; reflexivity).
  destruct w; simpl; [reflexivity|].
  rewrite orb_false_r. reflexivity.
Qed.

Lemma quoted_word_rules w :
  starts_with w "'" = true ->
  is_number_word w = false /\ is_hex_word w = false.
Proof.
  unfold starts_with. destruct w as [|c w]; [discriminate|].
  rewrite prefix_cons.
  destruct (Ascii.eqb_spec "'" c) as [<-|]; [|discriminate].
  intros _. unfold is_number_word, is_hex_word, starts_with.
  rewrite !prefix_cons. split; reflexivity.
Qed.

Lemma hex_word_rules d :
  is_number_word ("0x" +:+ d) = false
  /\ is_hex_word ("0x" +:+ d) = negb (String.eqb d "").
Proof.
  rewrite !append_cons, append_nil.
  unfold is_number_word, is_hex_word, starts_with.
  rewrite !prefix_cons. split; [reflexivity|].
  destruct d; reflexivity.
Qed.

Section Literals.

Variable GetOpName : Z -> string.
Variable FIRST_UNDEFINED_OP_VALUE : Z.

Local Abbreviation emit := (emit GetOpName FIRST_UNDEFINED_OP_VALUE).
Local Abbreviation step := (step GetOpName FIRST_UNDEFINED_OP_VALUE).
Local Abbreviation ParseWords :=
  (ParseWords GetOpName FIRST_UNDEFINED_OP_VALUE).
Local Abbreviation ParseScript :=
  (ParseScript GetOpName FIRST_UNDEFINED_OP_VALUE).

Lemma emit_hex_word s r d :
  d <> EmptyString ->
  emit s r ("0x" +:+ d)
  = if IsHex d then inr (r ++ ParseHex d) else inl hex_error_msg.
Proof.
  intros Hd. unfold emit.
  destruct (hex_word_rules d) as [-> ->].
  destruct (String.eqb_spec d ""); [contradiction|].
  change (str_drop 2 ("0x" +:+ d)) with d.
  destruct (IsHex d); reflexivity.
Qed.

(** C3: a word 0x followed by digits that [IsHex] accepts writes exactly
    [ParseHex] of the digits, one byte for two digits and nothing before
    them, and on its own is assembled to those bytes; a word 0x followed by
    anything else that is not empty stops [ParseScript] with the hex error;
    "0x0a" is assembled to the byte 0x0a. *)
Theorem hex_literal_written s r digits :
  (IsHex digits = true ->
     emit s r ("0x" +:+ digits) = inr (r ++ ParseHex digits)
     /\ String.length digits = (2 * length (ParseHex digits))%nat
     /\ ParseScript ("0x" +:+ digits) = inr (ParseHex digits))
  /\ (digits <> EmptyString -> IsHex digits = false ->
      forall pre post st,
        split s = pre ++ ("0x" +:+ digits) :: post ->
        ParseWords s initial_state pre = inr st ->
        ParseScript s = inl hex_error_msg)
  /\ ParseScript "0x0a" = inr [10].
Proof.
  split; [|split].
  - intros Hhex.
    destruct (IsHex_inv _ Hhex) as (Hall & Hne & n & Hn).
    pose proof (emit_hex_word s r digits Hne) as He.
    rewrite Hhex in He. split; [exact He|]. split.
    + rewrite (ParseHex_length n digits Hn Hall). exact Hn.
    + rewrite ParseScript_one_word.
      * rewrite emit_hex_word, Hhex by exact Hne. reflexivity.
      * rewrite !append_cons, append_nil. unfold no_sep. simpl.
        apply all_hex_no_sep. exact Hall.
      * discriminate.
  - intros Hne Hhex pre post st Hs Hpre.
    eapply ParseScript_throws_at; eauto.
    unfold step.
    destruct (String.eqb_spec ("0x" +:+ digits) ""); [discriminate|].
    rewrite emit_hex_word, Hhex by exact Hne. reflexivity.
  - vm_compute. reflexivity.
Qed.

(** C6 (the code at the input that breaks it): the lone minus sign is taken
    by the rule for decimal numbers, read as 0 and assembled to OP_0. *)
Theorem lone_minus_is_a_number : ParseScript "-" = inr [0].
Proof. vm_compute. reflexivity. Qed.

(** The rule for numbers takes the words of -?[0-9]+ and, besides them, the
    lone minus sign; what it writes is [push_int64] of [atoi64]. *)
Lemma number_word_written s r w :
  w <> EmptyString ->
  (matches_decimal w = true \/ w = "-"%string) ->
  emit s r w = inr (push_int64 r (atoi64 w)).
Proof.
  intros Hw Hm. unfold emit. rewrite (number_word_spec w Hw).
  destruct Hm as [->| ->]; reflexivity.
Qed.

(** C7: a word of length at least 2 that starts and ends with a single
    quote is the quote, the content and the quote; it writes the prefix the
    data-push encoder chooses for the length of the content and then the
    bytes of the content as they are; "'abc'" is assembled to
    03 61 62 63. *)
Theorem quoted_literal_pushed s r w :
  (2 <= String.length w)%nat ->
  starts_with w "'" = true ->
  ends_with w "'" = true ->
  w = "'" +:+ quoted_content w +:+ "'"
  /\ emit s r w
     = inr (r ++ push_prefix (Z.of_nat (String.length (quoted_content w)))
              ++ bytes_of_string (quoted_content w))
  /\ ParseScript "'abc'" = inr [3; 97; 98; 99].
Proof.
  intros Hlen Hs He.
  assert (Hq : is_quoted_word w = true).
  { unfold is_quoted_word. rewrite Hs, He.
    apply Nat.leb_le in Hlen. rewrite Hlen. reflexivity. }
  split; [apply quoted_word_inv; exact Hq|]. split.
  - unfold emit. destruct (quoted_word_rules w Hs) as [-> ->].
    rewrite Hq. unfold push_data, bytes_of_string.
    rewrite length_map.
    replace (length (list_ascii_of_string (quoted_content w)))
      with (String.length (quoted_content w)); [reflexivity|].
    generalize (quoted_content w). intros c.
    induction c as [|a c IH]; simpl; [reflexivity | by rewrite IH].
  - vm_compute. reflexivity.
Qed.

End Literals.

Lemma hex_literal_written_witness :
  IsHex "00ff" = true
  /\ emit sampleOpName sampleFirstUndefined "1 0x00ff" [81] "0x00ff"
     = inr [81; 0; 255]
  /\ IsHex "00000" = false
  /\ sampleParseScript "1 0x00000" = inl hex_error_msg.
Proof.
  destruct (hex_literal_written sampleOpName sampleFirstUndefined
              "1 0x00ff" [81] "00ff") as (Hgood & _ & _).
  destruct (hex_literal_written sampleOpName sampleFirstUndefined
              "1 0x00000" [81] "00000") as (_ & Hbad & _).
  split; [reflexivity|].
  split; [exact (proj1 (Hgood eq_refl))|].
  split; [reflexivity|].
  apply (Hbad ltac:(discriminate) eq_refl ["1"%string] [] (mkState [81] 0 0));
    vm_compute; reflexivity.
Defined.

Lemma quoted_literal_pushed_witness :
  (2 <= String.length "'Az'")%nat
  /\ split "1 'Az'" = ["1"; "'Az'"]%string
  /\ emit sampleOpName sampleFirstUndefined "1 'Az'" [81] "'Az'"
     = inr [81; 2; 65; 122].
Proof.
  split; [simpl; lia|]. split; [reflexivity|].
  exact (proj1 (proj2 (quoted_literal_pushed sampleOpName sampleFirstUndefined
                         "1 'Az'" [81] "'Az'" ltac:(simpl; lia)
                         eq_refl eq_refl))).
Defined.

(** ** The table of opcode names *)

Section Table.

Variable GetOpName : Z -> string.
Variable FIRST_UNDEFINED_OP_VALUE : Z.

Local Abbreviation add_op_names := (add_op_names GetOpName).
Local Abbreviation mapOpNames :=
  (mapOpNames GetOpName FIRST_UNDEFINED_OP_VALUE).
Local Abbreviation names := (names GetOpName).

Lemma add_op_names_hit m op k :
  names k op -> add_op_names m op !! k = Some op.
Proof.
  intros (Hop & Hname & Hk). unfold add_op_names.
  destruct (Z.ltb_spec op OP_PUSHDATA1); [lia|].
  destruct (String.eqb_spec (GetOpName op) "OP_UNKNOWN"); [contradiction|].
  rewrite lookup_insert. case_decide as Ha; [reflexivity|].
  destruct Hk as [->| ->]; [|contradiction].
  apply lookup_insert_eq.
Qed.

Lemma add_op_names_miss m op k :
  ~ names k op -> add_op_names m op !! k = m !! k.
Proof.
  intros Hn. unfold add_op_names.
  destruct (Z.ltb_spec op OP_PUSHDATA1); [reflexivity|].
  destruct (String.eqb_spec (GetOpName op) "OP_UNKNOWN"); [reflexivity|].
  rewrite !lookup_insert_ne; [reflexivity| |];
    intros <-; apply Hn; unfold names; auto 6 with lia.
Qed.

Lemma names_dec k op : names k op \/ ~ names k op.
Proof.
  unfold names.
  destruct (decide (OP_PUSHDATA1 <= op)); [|tauto].
  destruct (decide (GetOpName op = "OP_UNKNOWN"%string)); [tauto|].
  destruct (decide (k = GetOpName op)); [tauto|].
  destruct (decide (k = replace_first (GetOpName op) "OP_" "")); tauto.
Qed.

(** Whatever the loop leaves under a key was put there for an opcode of
    the range that the key names. *)
Lemma fill_lookup_sound ops : forall (m : gmap string Z) k v,
  foldl add_op_names m ops !! k = Some v ->
  m !! k = Some v \/ (v ∈ ops /\ names k v).
Proof.
  induction ops as [|op ops IH]; simpl; intros m k v H; [auto|].
  destruct (IH _ _ _ H) as [Hm|[Hin Hn]].
  - destruct (names_dec k op) as [Hn|Hn].
    + rewrite (add_op_names_hit _ _ _ Hn) in Hm. injection Hm as <-.
      right. split; [left | exact Hn].
    + rewrite (add_op_names_miss _ _ _ Hn) in Hm. auto.
  - right. split; [right; exact Hin | exact Hn].
Qed.

(** A key that no opcode of [ops] is entered under is left alone. *)
Lemma fill_lookup_untouched ops : forall (m : gmap string Z) k,
  (forall v, v ∈ ops -> ~ names k v) ->
  foldl add_op_names m ops !! k = m !! k.
Proof.
  induction ops as [|op ops IH]; simpl; intros m k Hk; [reflexivity|].
  rewrite IH by (intros v Hv; apply Hk; right; exact Hv).
  apply add_op_names_miss, Hk. left.
Qed.

(** A key entered for one opcode of [ops] only is found with it. *)
Lemma fill_lookup_complete ops : forall (m : gmap string Z) k v,
  v ∈ ops -> names k v ->
  (forall v', v' ∈ ops -> names k v' -> v' = v) ->
  foldl add_op_names m ops !! k = Some v.
Proof.
  induction ops as [|op ops IH]; simpl; intros m k v Hin Hn Huniq.
  - inversion Hin.
  - destruct (decide (v ∈ ops)) as [Hv|Hv].
    + apply IH; [exact Hv | exact Hn |].
      intros v' Hv'. apply Huniq. right. exact Hv'.
    + apply elem_of_cons in Hin as [->|Hin]; [|contradiction].
      rewrite fill_lookup_untouched.
      * apply add_op_names_hit, Hn.
      * intros v' Hv' Hn'. apply Hv.
        rewrite <- (Huniq v'); [exact Hv' | right; exact Hv' | exact Hn'].
Qed.

Lemma mapOpNames_sound k v :
  mapOpNames !! k = Some v ->
  v < FIRST_UNDEFINED_OP_VALUE /\ names k v.
Proof.
  unfold mapOpNames. intros H.
  destruct (fill_lookup_sound _ _ _ _ H) as [He|[Hin Hn]].
  - rewrite lookup_empty in He. discriminate.
  - apply elem_of_seqZ in Hin. split; [lia | exact Hn].
Qed.

Lemma mapOpNames_complete k v :
  v < FIRST_UNDEFINED_OP_VALUE -> names k v ->
  (forall v', v' < FIRST_UNDEFINED_OP_VALUE -> names k v' -> v' = v) ->
  mapOpNames !! k = Some v.
Proof.
  intros Hlt Hn Huniq. unfold mapOpNames.
  apply fill_lookup_complete; [|exact Hn|].
  - apply elem_of_seqZ. destruct Hn as [Hge _]. unfold OP_PUSHDATA1 in Hge.
    lia.
  - intros v' Hv'. apply Huniq. apply elem_of_seqZ in Hv'. lia.
Qed.

Lemma known_op_spec v :
  known_op GetOpName FIRST_UNDEFINED_OP_VALUE v = true
  <-> OP_PUSHDATA1 <= v < FIRST_UNDEFINED_OP_VALUE
      /\ GetOpName v <> "OP_UNKNOWN"%string.
Proof.
  unfold known_op. rewrite !andb_true_iff, negb_true_iff.
  rewrite Z.leb_le, Z.ltb_lt.
  destruct (String.eqb_spec (GetOpName v) "OP_UNKNOWN"); split;
    intros [? ?]; try discriminate; try contradiction; auto with lia.
Qed.

Lemma known_ops_spec v :
  In v (known_ops GetOpName FIRST_UNDEFINED_OP_VALUE)
  <-> known_op GetOpName FIRST_UNDEFINED_OP_VALUE v = true.
Proof.
  unfold known_ops. rewrite filter_In. split; [tauto|].
  intros H. split; [|exact H].
  apply known_op_spec in H. apply list_elem_of_In, elem_of_seqZ.
  unfold OP_PUSHDATA1 in H. lia.
Qed.

Lemma distinct_inj {A} (f : A -> string) (l : list A) :
  distinct (List.map f l) = true ->
  forall x y, In x l -> In y l -> f x = f y -> x = y.
Proof.
  induction l as [|a l IH]; simpl; [contradiction|].
  intros [Ha Hl]%andb_prop x y Hx Hy Hf.
  apply negb_true_iff in Ha.
  assert (Hfresh : forall z, In z l -> f a <> f z).
  { intros z Hz Hfz.
    assert (existsb (String.eqb (f a)) (List.map f l) = true);
      [|congruence].
    apply existsb_exists. exists (f z). split.
    - apply in_map. exact Hz.
    - apply String.eqb_eq. exact Hfz. }
  destruct Hx as [<-|Hx], Hy as [<-|Hy]; auto.
  - exfalso. eapply Hfresh; eauto.
  - exfalso. eapply Hfresh; eauto.
Qed.

Lemma table_ok_inv :
  table_ok GetOpName FIRST_UNDEFINED_OP_VALUE = true ->
  (forall v,
     known_op GetOpName FIRST_UNDEFINED_OP_VALUE v = true ->
     small_number_name (GetOpName v) v = true
     \/ mnemonic_name (GetOpName v) = true)
  /\ (forall v v',
        known_op GetOpName FIRST_UNDEFINED_OP_VALUE v = true ->
        known_op GetOpName FIRST_UNDEFINED_OP_VALUE v' = true ->
        GetOpName v = GetOpName v' -> v = v').
Proof.
  unfold table_ok. intros [Hall Hd]%andb_prop. split.
  - intros v Hv. apply orb_prop.
    rewrite forallb_forall in Hall. apply Hall, known_ops_spec, Hv.
  - intros v v' Hv Hv'.
    apply (distinct_inj _ _ Hd); apply known_ops_spec; assumption.
Qed.

End Table.

Lemma small_numbers_list :
  small_numbers = [-1; 1; 2; 3; 4; 5; 6; 7; 8; 9; 10; 11; 12; 13; 14; 15; 16].
Proof. reflexivity. Qed.

(** The numeral of a small number is taken by the rule for numbers, which
    writes the opcode of that number, whatever the table holds. *)
Lemma small_number_name_inv name op :
  small_number_name name op = true ->
  is_number_word name = true
  /\ replace_first name "OP_" "" = name
  /\ forall GetOpName FIRST_UNDEFINED_OP_VALUE,
       ParseScript GetOpName FIRST_UNDEFINED_OP_VALUE name = inr [op].
Proof.
  unfold small_number_name. rewrite small_numbers_list.
  intros (n & Hin & [Hname Hop]%andb_prop)%existsb_exists.
  apply String.eqb_eq in Hname. apply Z.eqb_eq in Hop.
  simpl in Hin.
  repeat (destruct Hin as [<-|Hin]; [
    subst name op; repeat split; try (vm_compute; reflexivity);
    intros; vm_compute; reflexivity |]).
  contradiction.
Qed.

Lemma prefix_drop p : forall s,
  String.prefix p s = true -> s = p +:+ str_drop (String.length p) s.
Proof.
  induction p as [|a p IH]; intros s H; [reflexivity|].
  destruct s as [|b s]; [discriminate|].
  rewrite prefix_cons in H.
  destruct (Ascii.eqb_spec a b) as [->|]; [|discriminate].
  rewrite append_cons. simpl. f_equal. apply IH, H.
Qed.

Lemma mnemonic_name_inv name :
  mnemonic_name name = true ->
  exists rest,
    name = "OP_" +:+ rest
    /\ rest <> EmptyString /\ no_sep rest = true
    /\ is_number_word rest = false /\ is_hex_word rest = false
    /\ is_quoted_word rest = false /\ starts_with rest "OP_" = false.
Proof.
  unfold mnemonic_name. rewrite !andb_true_iff, !negb_true_iff.
  intros [[[[[[Hp Hne] Hsep] Hnum] Hhex] Hq] Hop].
  exists (str_drop 3 name). repeat split; try assumption.
  - apply (prefix_drop "OP_"), Hp.
  - intros Hz. rewrite Hz in Hne. discriminate.
Qed.

Lemma mnemonic_rules rest :
  is_number_word ("OP_" +:+ rest) = false
  /\ is_hex_word ("OP_" +:+ rest) = false
  /\ is_quoted_word ("OP_" +:+ rest) = false
  /\ starts_with ("OP_" +:+ rest) "OP_" = true
  /\ replace_first ("OP_" +:+ rest) "OP_" "" = rest
  /\ no_sep ("OP_" +:+ rest) = no_sep rest.
Proof.
  rewrite !append_cons, append_nil.
  unfold is_number_word, is_hex_word, is_quoted_word, starts_with, no_sep.
  cbn [replace_first String.length str_drop all].
  rewrite !prefix_cons. cbn [Ascii.eqb Bool.eqb String.prefix].
  repeat split; try reflexivity; destruct rest; reflexivity.
Qed.

Section OpcodeNames.

Variable GetOpName : Z -> string.
Variable FIRST_UNDEFINED_OP_VALUE : Z.

Local Abbreviation mapOpNames :=
  (mapOpNames GetOpName FIRST_UNDEFINED_OP_VALUE).
Local Abbreviation ParseScript :=
  (ParseScript GetOpName FIRST_UNDEFINED_OP_VALUE).
Local Abbreviation emit := (emit GetOpName FIRST_UNDEFINED_OP_VALUE).
Local Abbreviation names := (names GetOpName).
Local Abbreviation known_op :=
  (known_op GetOpName FIRST_UNDEFINED_OP_VALUE).

Hypothesis Hok : table_ok GetOpName FIRST_UNDEFINED_OP_VALUE = true.

Lemma names_known k v :
  v < FIRST_UNDEFINED_OP_VALUE -> names k v -> known_op v = true.
Proof.
  intros Hlt (Hge & Hn & _). apply known_op_spec. auto with lia.
Qed.

(** Under a mnemonic or its OP_ form only one opcode is entered. *)
Lemma mnemonic_names_unique v rest k :
  known_op v = true ->
  GetOpName v = "OP_" +:+ rest ->
  is_number_word rest = false -> starts_with rest "OP_" = false ->
  names k v ->
  forall v', v' < FIRST_UNDEFINED_OP_VALUE -> names k v' -> v' = v.
Proof.
  intros Hv Hname Hnum Hop (_ & _ & Hk) v' Hlt Hn'.
  pose proof (names_known _ _ Hlt Hn') as Hv'.
  destruct Hn' as (_ & _ & Hk').
  destruct (table_ok_inv _ _ Hok) as [Hshape Hinj].
  destruct (mnemonic_rules rest) as (Rnum & _ & _ & Rop & Ralias & _).
  rewrite Hname, Ralias in Hk.
  destruct (Hshape v' Hv') as [Hsmall|Hmn].
  - exfalso.
    destruct (small_number_name_inv _ _ Hsmall) as (Hn & Ha & _).
    rewrite Ha in Hk'.
    assert (k = GetOpName v') as -> by tauto.
    destruct Hk as [Hk|Hk]; rewrite Hk in Hn; congruence.
  - destruct (mnemonic_name_inv _ Hmn) as (rest' & Hname' & _ & _ & _ & _ & _
                                             & Hop').
    destruct (mnemonic_rules rest') as (_ & _ & _ & Rop' & Ralias' & _).
    rewrite Hname', Ralias' in Hk'.
    destruct Hk as [->| ->], Hk' as [Hk'|Hk'].
    + symmetry. apply Hinj; congruence.
    + rewrite <- Hk' in Hop'. congruence.
    + rewrite Hk' in Hop. congruence.
    + symmetry. apply Hinj; congruence.
Qed.

Lemma emit_mnemonic s r k v :
  is_number_word k = false -> is_hex_word k = false ->
  is_quoted_word k = false -> mapOpNames !! k = Some v ->
  emit s r k = inr (r ++ [v]).
Proof.
  intros Hn Hh Hq Hl. unfold emit. rewrite Hn, Hh, Hq, Hl. reflexivity.
Qed.

Lemma mnemonic_assembles v :
  known_op v = true -> mnemonic_name (GetOpName v) = true ->
  ParseScript (GetOpName v) = inr [v]
  /\ ParseScript (replace_first (GetOpName v) "OP_" "") = inr [v].
Proof.
  intros Hv Hmn.
  destruct (mnemonic_name_inv _ Hmn)
    as (rest & Hname & Hne & Hsep & Hnum & Hhex & Hq & Hop).
  destruct (mnemonic_rules rest)
    as (Rnum & Rhex & Rq & Rop & Ralias & Rsep).
  pose proof (proj1 (known_op_spec _ _ _) Hv) as [[Hge Hlt] Hunk].
  assert (Hfull : names (GetOpName v) v) by (unfold names; auto).
  assert (Hshort : names rest v).
  { split; [exact Hge|]. split; [exact Hunk|]. right.
    rewrite Hname, Ralias. reflexivity. }
  assert (Lfull : mapOpNames !! GetOpName v = Some v).
  { apply mapOpNames_complete; [exact Hlt | exact Hfull |].
    eapply mnemonic_names_unique; eauto. }
  assert (Lshort : mapOpNames !! rest = Some v).
  { apply mapOpNames_complete; [exact Hlt | exact Hshort |].
    eapply mnemonic_names_unique; eauto. }
  rewrite Hname in Lfull |- *. rewrite Ralias. split.
  - rewrite ParseScript_one_word.
    + apply (emit_mnemonic _ []); assumption.
    + rewrite Rsep. exact Hsep.
    + discriminate.
  - rewrite ParseScript_one_word.
    + apply (emit_mnemonic _ []); assumption.
    + exact Hsep.
    + exact Hne.
Qed.

End OpcodeNames.

(** C8: every opcode [mapOpNames] holds is at least OP_PUSHDATA1 (and below
    the first undefined value) and is not named OP_UNKNOWN; and when the
    table of names is as [table_ok] describes, the name of every opcode that
    [mapOpNames] holds and that name with its first OP_ removed are both
    assembled to the one byte of the opcode. *)
Theorem opcode_names_assemble GetOpName FIRST_UNDEFINED_OP_VALUE name op :
  mapOpNames GetOpName FIRST_UNDEFINED_OP_VALUE !! name = Some op ->
  (OP_PUSHDATA1 <= op < FIRST_UNDEFINED_OP_VALUE
   /\ GetOpName op <> "OP_UNKNOWN"%string)
  /\ (table_ok GetOpName FIRST_UNDEFINED_OP_VALUE = true ->
      ParseScript GetOpName FIRST_UNDEFINED_OP_VALUE (GetOpName op)
      = inr [op]
      /\ ParseScript GetOpName FIRST_UNDEFINED_OP_VALUE
           (replace_first (GetOpName op) "OP_" "")
         = inr [op]).
Proof.
  intros Hl.
  destruct (mapOpNames_sound _ _ _ _ Hl) as (Hlt & Hge & Hunk & _).
  split; [auto with lia|].
  intros Hok.
  assert (Hv : known_op GetOpName FIRST_UNDEFINED_OP_VALUE op = true)
    by (apply known_op_spec; auto with lia).
  destruct (proj1 (table_ok_inv _ _ Hok) op Hv) as [Hsmall|Hmn].
  - destruct (small_number_name_inv _ _ Hsmall) as (_ & -> & Hp).
    split; apply Hp.
  - apply mnemonic_assembles; assumption.
Qed.

Lemma opcode_names_assemble_witness :
  mapOpNames sampleOpName sampleFirstUndefined !! "ADD"%string = Some 147
  /\ table_ok sampleOpName sampleFirstUndefined = true
  /\ sampleParseScript "OP_ADD" = inr [147]
  /\ sampleParseScript "ADD" = inr [147].
Proof.
  assert (Hl : mapOpNames sampleOpName sampleFirstUndefined !! "ADD"%string
               = Some 147) by (vm_compute; reflexivity).
  assert (Hok : table_ok sampleOpName sampleFirstUndefined = true)
    by (vm_compute; reflexivity).
  split; [exact Hl|]. split; [exact Hok|].
  exact (proj2 (opcode_names_assemble sampleOpName sampleFirstUndefined
                  "ADD" 147 Hl) Hok).
Defined.

Example small_number_names :
  mapOpNames sampleOpName sampleFirstUndefined !! "16"%string = Some 96
  /\ sampleParseScript "16" = inr [96]
  /\ sampleParseScript "-1" = inr [79].
Proof. vm_compute. repeat split; reflexivity. Qed.

(** ** DecodeHexTx and DecodeHexBlk *)

Section DecodeHexFacts.

Variables CTransaction CBlock : Type.
Variable read_tx : list Z -> option (CTransaction * list Z).
Variable read_block : list Z -> option (CBlock * list Z).

(** [DecodeHexTx] says yes exactly when the string is hex and the read
    succeeds and uses up the stream. *)
Lemma DecodeHexTx_true tx strHexTx :
  fst (DecodeHexTx CTransaction read_tx tx strHexTx) = true
  <-> IsHex strHexTx = true
      /\ exists tx', read_tx (ParseHex strHexTx) = Some (tx', []).
Proof.
  unfold DecodeHexTx. destruct (IsHex strHexTx); simpl.
  - destruct (read_tx (ParseHex strHexTx)) as [[tx' [|b rest]]|]; simpl;
      (split; [intros Ht; try discriminate Ht; eauto
              | intros [_ [tx'' Hr]]; try discriminate Hr; reflexivity]).
  - split; [intros Ht | intros [Ht _]]; discriminate Ht.
Qed.

(** [DecodeHexBlk] says yes exactly when the string is hex and the read
    succeeds, whatever is left in the stream. *)
Lemma DecodeHexBlk_true block strHexBlk :
  fst (DecodeHexBlk CBlock read_block block strHexBlk) = true
  <-> IsHex strHexBlk = true
      /\ exists block' rest,
           read_block (ParseHex strHexBlk) = Some (block', rest).
Proof.
  unfold DecodeHexBlk. destruct (IsHex strHexBlk); simpl.
  - destruct (read_block (ParseHex strHexBlk)) as [[block' rest]|]; simpl;
      (split; [intros Ht; try discriminate Ht; eauto
              | intros [_ (b & r & Hr)]; try discriminate Hr; reflexivity]).
  - split; [intros Ht | intros [Ht _]]; discriminate Ht.
Qed.

(** C9 (the code at the inputs that break it): when the read of a block
    succeeds and leaves bytes in the stream, [DecodeHexBlk] returns true,
    where [DecodeHexTx] returns false for a transaction read that leaves
    bytes. *)
Theorem DecodeHexBlk_ignores_trailing block strHexBlk block' rest :
  IsHex strHexBlk = true ->
  read_block (ParseHex strHexBlk) = Some (block', rest) ->
  rest <> [] ->
  DecodeHexBlk CBlock read_block block strHexBlk = (true, block')
  /\ forall tx tx',
       read_tx (ParseHex strHexBlk) = Some (tx', rest) ->
       DecodeHexTx CTransaction read_tx tx strHexBlk = (false, tx').
Proof.
  intros Hhex Hread Hrest. unfold DecodeHexBlk, DecodeHexTx.
  rewrite Hhex, Hread. simpl. split; [reflexivity|].
  intros tx tx' ->. destruct rest; [contradiction | reflexivity].
Qed.

End DecodeHexFacts.

Lemma DecodeHexBlk_ignores_trailing_witness :
  IsHex "0700" = true
  /\ read_one_byte (ParseHex "0700") = Some (7, [0])
  /\ DecodeHexBlk Z read_one_byte 0 "0700" = (true, 7)
  /\ DecodeHexTx Z read_one_byte 0 "0700" = (false, 7).
Proof.
  split; [reflexivity|]. split; [reflexivity|].
  destruct (DecodeHexBlk_ignores_trailing Z Z read_one_byte read_one_byte
              0 "0700" 7 [0] eq_refl eq_refl ltac:(discriminate))
    as [Hblk Htx].
  split; [exact Hblk | exact (Htx 0 7 eq_refl)].
Defined.

Example DecodeHex_not_hex :
  DecodeHexTx Z read_one_byte 0 "0g" = (false, 0)
  /\ DecodeHexBlk Z read_one_byte 0 "0g" = (false, 0)
  /\ DecodeHexTx Z read_one_byte 0 "07" = (true, 7).
Proof. repeat split; reflexivity. Qed.


(** ** Words of the input *)

Lemma split_from_false_eq s :
  split_from false s = head_word s :: tail_words s.
Proof.
  induction s as [|c s IH]; simpl; [reflexivity|].
  destruct (is_sep c); [reflexivity|]. rewrite IH. reflexivity.
Qed.

Lemma filter_split_from_true s :
  List.filter nonempty (split_from true s) = tokens s.
Proof.
  unfold tokens, split. destruct s as [|c s]; simpl; [reflexivity|].
  destruct (is_sep c); reflexivity.
Qed.

Lemma tokens_cons_sep c s : is_sep c = true -> tokens (String c s) = tokens s.
Proof.
  intros Hc. rewrite <- (filter_split_from_true s).
  unfold tokens, split. simpl. rewrite Hc. reflexivity.
Qed.

Lemma tokens_cons_word c s :
  is_sep c = false ->
  tokens (String c s)
  = String c (head_word s) :: List.filter nonempty (tail_words s).
Proof.
  intros Hc. unfold tokens, split. simpl. rewrite Hc, split_from_false_eq.
  reflexivity.
Qed.

Lemma tokens_whitespace s : all s is_sep = true -> tokens s = [].
Proof.
  induction s as [|c s IH]; simpl; [reflexivity|].
  intros [Hc Hs]%andb_prop. rewrite (tokens_cons_sep _ _ Hc). exact (IH Hs).
Qed.

Lemma head_word_append a c b :
  is_sep c = true -> head_word (a +:+ String c b) = head_word a.
Proof.
  intros Hc. induction a as [|x a IH].
  - rewrite append_nil. simpl. rewrite Hc. reflexivity.
  - rewrite append_cons. simpl. rewrite IH. reflexivity.
Qed.

Lemma tail_words_append a c b :
  is_sep c = true ->
  List.filter nonempty (tail_words (a +:+ String c b))
  = List.filter nonempty (tail_words a) ++ tokens b
  /\ List.filter nonempty (split_from true (a +:+ String c b))
     = List.filter nonempty (split_from true a) ++ tokens b.
Proof.
  intros Hc. induction a as [|x a [IH1 IH2]].
  - rewrite append_nil. simpl. rewrite Hc.
    rewrite filter_split_from_true. split; reflexivity.
  - rewrite append_cons. simpl. destruct (is_sep x) eqn:Hx.
    + split; exact IH2.
    + split; [exact IH1|].
      rewrite !split_from_false_eq, (head_word_append _ _ _ Hc).
      simpl. rewrite IH1. reflexivity.
Qed.

(** The words of two texts joined by a separator are the words of the one
    followed by the words of the other. *)
Lemma tokens_append a c b :
  is_sep c = true -> tokens (a +:+ String c b) = tokens a ++ tokens b.
Proof.
  intros Hc. unfold tokens at 1 2, split.
  rewrite !split_from_false_eq, (head_word_append _ _ _ Hc).
  simpl. rewrite (proj1 (tail_words_append a c b Hc)).
  destruct (nonempty (head_word a)); reflexivity.
Qed.

Lemma split_from_words_no_sep s : forall merged w,
  In w (split_from merged s) -> no_sep w = true.
Proof.
  induction s as [|c s IH]; simpl; intros merged w Hw.
  - destruct Hw as [<-|[]]. reflexivity.
  - destruct (is_sep c) eqn:Hc.
    + destruct merged; [eauto|].
      destruct Hw as [<-|Hw]; [reflexivity | eauto].
    + destruct (split_from false s) as [|t ts] eqn:Hs.
      * destruct Hw as [<-|[]]. unfold no_sep. simpl. rewrite Hc. reflexivity.
      * destruct Hw as [<-|Hw].
        -- unfold no_sep. simpl. rewrite Hc. simpl.
           apply (IH false). rewrite Hs. left. reflexivity.
        -- apply (IH false). rewrite Hs. right. exact Hw.
Qed.

Lemma no_sep_append a b : no_sep (a +:+ b) = no_sep a && no_sep b.
Proof.
  unfold no_sep. induction a as [|c a IH].
  - reflexivity.
  - rewrite append_cons. simpl. rewrite IH, andb_assoc. reflexivity.
Qed.

Lemma no_sep_bytes w :
  no_sep w = true ->
  Forall (fun b => b <> 32 /\ b <> 9 /\ b <> 10) (bytes_of_string w).
Proof.
  unfold no_sep, bytes_of_string.
  induction w as [|c w IH]; simpl; [constructor|].
  intros [Hc Hw]%andb_prop. constructor; [|exact (IH Hw)].
  apply negb_true_iff in Hc. unfold is_sep in Hc.
  destruct (Z.eqb_spec (char_code c) 32), (Z.eqb_spec (char_code c) 9),
    (Z.eqb_spec (char_code c) 10); simpl in Hc; try discriminate; auto.
Qed.

(** ** The input as a sequence of words *)

Section Inputs.

Variable GetOpName : Z -> string.
Variable FIRST_UNDEFINED_OP_VALUE : Z.

Local Abbreviation emit := (emit GetOpName FIRST_UNDEFINED_OP_VALUE).
Local Abbreviation step := (step GetOpName FIRST_UNDEFINED_OP_VALUE).
Local Abbreviation ParseWords :=
  (ParseWords GetOpName FIRST_UNDEFINED_OP_VALUE).
Local Abbreviation ParseScript :=
  (ParseScript GetOpName FIRST_UNDEFINED_OP_VALUE).

Lemma ParseWords_tokens s words : forall st,
  ParseWords s st words = ParseWords s st (List.filter nonempty words).
Proof.
  induction words as [|w words IH]; intros st; simpl; [reflexivity|].
  unfold nonempty at 1. destruct (String.eqb_spec w "") as [->|Hw]; simpl.
  - apply IH.
  - destruct (step s st w); [reflexivity | apply IH].
Qed.

Lemma ParseScript_tokens s :
  ParseScript s
  = match ParseWords s initial_state (tokens s) with
    | inl e => inl e
    | inr st => inr (result st)
    end.
Proof. unfold ParseScript, tokens. rewrite <- ParseWords_tokens. reflexivity. Qed.

Lemma emit_same_outcome s1 s2 r w :
  same_outcome s1 s2 (emit s1 r w) (emit s2 r w).
Proof.
  unfold emit, same_outcome.
  repeat case_match; simplify_eq; auto.
Qed.

Lemma step_same_outcome s1 s2 st w :
  same_outcome s1 s2 (step s1 st w) (step s2 st w).
Proof.
  unfold step. destruct (String.eqb w ""); [reflexivity|].
  pose proof (emit_same_outcome s1 s2 (result st) w) as He.
  unfold same_outcome in He |- *.
  destruct (emit s1 (result st) w), (emit s2 (result st) w);
    try contradiction; [exact He|]. subst.
  destruct (next st l0); auto.
Qed.

Lemma ParseWords_same_outcome s1 s2 words : forall st,
  same_outcome s1 s2 (ParseWords s1 st words) (ParseWords s2 st words).
Proof.
  induction words as [|w words IH]; intros st; simpl; [reflexivity|].
  pose proof (step_same_outcome s1 s2 st w) as Hw.
  unfold same_outcome in Hw.
  destruct (step s1 st w), (step s2 st w); try contradiction.
  - exact Hw.
  - subst. apply IH.
Qed.

(** X1: an input made of spaces, tabs and newlines only (the empty input
    among them) is assembled to the empty script. *)
Theorem whitespace_is_empty_script s :
  all s is_sep = true -> ParseScript s = inr [].
Proof.
  intros Hs. rewrite ParseScript_tokens, (tokens_whitespace _ Hs).
  reflexivity.
Qed.

(** X2: two inputs with the same words, however the words are separated,
    have the same outcome: the same script, or the same message but for the
    parse error, which carries the input it was thrown for. *)
Theorem layout_is_irrelevant s1 s2 :
  tokens s1 = tokens s2 ->
  same_outcome s1 s2 (ParseScript s1) (ParseScript s2).
Proof.
  intros Ht. rewrite !ParseScript_tokens, Ht.
  pose proof (ParseWords_same_outcome s1 s2 (tokens s2) initial_state) as H.
  unfold same_outcome in H |- *.
  destruct (ParseWords s1 initial_state (tokens s2)),
    (ParseWords s2 initial_state (tokens s2)); try contradiction.
  - exact H.
  - congruence.
Qed.

Lemma ParseWords_written s words : forall st st',
  ParseWords s st words = inr st' ->
  exists bss,
    Forall2 (fun w bs => emit s [] w = inr bs)
            (List.filter nonempty words) bss
    /\ result st' = result st ++ concat bss.
Proof.
  induction words as [|w words IH]; simpl; intros st st' H.
  - injection H as <-. exists []. split; [constructor|].
    simpl. rewrite app_nil_r. reflexivity.
  - destruct (step s st w) as [e|st1] eqn:Hw; [discriminate|].
    destruct (IH _ _ H) as (bss & Hall & Hres).
    unfold step in Hw. unfold nonempty at 1.
    destruct (String.eqb w ""); simpl.
    + injection Hw as <-. exists bss. auto.
    + destruct (emit s (result st) w) as [e|r'] eqn:He; [discriminate|].
      destruct (emit_inr_app _ _ _ _ _ _ He) as (bs & -> & Hbs).
      rewrite (next_result _ _ _ Hw) in Hres.
      exists (bs :: bss). split; [constructor; assumption|].
      simpl. rewrite Hres, app_assoc. reflexivity.
Qed.

(** X3: the script [ParseScript] returns is what the words of the input
    write, one after the other; the push bookkeeping can refuse an input but
    never changes a byte of an accepted one. *)
Theorem script_is_what_the_words_write s r :
  ParseScript s = inr r ->
  exists bss,
    Forall2 (fun w bs => emit s [] w = inr bs) (tokens s) bss
    /\ r = concat bss.
Proof.
  unfold ParseScript. intros H.
  destruct (ParseWords s initial_state (split s)) as [e|st] eqn:Hp;
    [discriminate|].
  injection H as <-.
  destruct (ParseWords_written _ _ _ _ Hp) as (bss & Hall & Hres).
  exists bss. split; assumption.
Qed.

(** X4: no word of the input has a space, a tab or a newline in it, so the
    content pushed for a quoted word never holds one of these bytes. *)
Theorem quoted_content_has_no_whitespace s w :
  In w (split s) ->
  is_quoted_word w = true ->
  no_sep w = true
  /\ Forall (fun b => b <> 32 /\ b <> 9 /\ b <> 10)
            (bytes_of_string (quoted_content w)).
Proof.
  intros Hw Hq.
  pose proof (split_from_words_no_sep _ _ _ Hw) as Hsep.
  split; [exact Hsep|].
  rewrite (quoted_word_inv _ Hq), !no_sep_append in Hsep.
  apply andb_prop in Hsep as [_ [Hc _]%andb_prop].
  apply no_sep_bytes, Hc.
Qed.

End Inputs.

(** ** Scripts written one after the other *)

Lemma read_push_field_prepend r x off p d :
  read_push_field (r ++ x) (length r + off) p d = read_push_field x off p d.
Proof.
  unfold read_push_field, ReadLE16, ReadLE32.
  rewrite <- !Nat.add_assoc, !byte_at_app.
  unfold byte_at. reflexivity.
Qed.

Lemma inspect_opcode_prepend r x bs f :
  inspect_opcode (r ++ x ++ bs) 0 (Z.of_nat (length bs)) f
  = prepend r (inspect_opcode (x ++ bs) 0 (Z.of_nat (length bs)) f).
Proof.
  unfold inspect_opcode, prepend. simpl.
  destruct (Z.eqb_spec (Z.of_nat (length bs)) 1) as [Hlen|_];
    [|reflexivity].
  destruct bs as [|b [|? ?]]; simpl in Hlen; try lia.
  assert (List.last (r ++ x ++ [b]) 0 = b) as ->
    by (rewrite app_assoc; apply List.last_last).
  rewrite List.last_last.
  repeat case_match; reflexivity.
Qed.

Lemma inspect_opcode_pending x p sc f :
  p <> 0 -> inspect_opcode x p sc f = mkState x (fst f) (snd f).
Proof.
  intros Hp. unfold inspect_opcode.
  destruct (Z.eqb_spec p 0); [contradiction | reflexivity].
Qed.

Lemma next_prepend r st bs :
  next (prepend r st) (r ++ result st ++ bs)
  = match next st (result st ++ bs) with
    | inl e => inl e
    | inr st' => inr (prepend r st')
    end.
Proof.
  unfold next. cbn [prepend result next_push_size push_data_size].
  rewrite (app_assoc r), !size_change_app.
  destruct (negb (next_push_size st =? 0)
            && negb (Z.of_nat (length bs) =? next_push_size st));
    [reflexivity|].
  f_equal. rewrite <- (app_assoc r), length_app, read_push_field_prepend.
  destruct (Z.eq_dec (next_push_size st) 0) as [Hz|Hnz].
  - rewrite Hz. apply inspect_opcode_prepend.
  - rewrite !inspect_opcode_pending by assumption. reflexivity.
Qed.

Section Composition.

Variable GetOpName : Z -> string.
Variable FIRST_UNDEFINED_OP_VALUE : Z.

Local Abbreviation emit := (emit GetOpName FIRST_UNDEFINED_OP_VALUE).
Local Abbreviation step := (step GetOpName FIRST_UNDEFINED_OP_VALUE).
Local Abbreviation ParseWords :=
  (ParseWords GetOpName FIRST_UNDEFINED_OP_VALUE).
Local Abbreviation ParseScript :=
  (ParseScript GetOpName FIRST_UNDEFINED_OP_VALUE).
Local Abbreviation mapOpNames :=
  (mapOpNames GetOpName FIRST_UNDEFINED_OP_VALUE).

Lemma step_prepend s r st w :
  step s (prepend r st) w
  = match step s st w with
    | inl e => inl e
    | inr st' => inr (prepend r st')
    end.
Proof.
  unfold step. destruct (String.eqb w ""); [reflexivity|].
  cbn [prepend result].
  rewrite (emit_appends _ _ s (r ++ result st) w),
    (emit_appends _ _ s (result st) w).
  destruct (emit s [] w) as [e|bs]; [reflexivity|].
  rewrite <- app_assoc. apply next_prepend.
Qed.

Lemma ParseWords_prepend s r words : forall st,
  ParseWords s (prepend r st) words
  = match ParseWords s st words with
    | inl e => inl e
    | inr st' => inr (prepend r st')
    end.
Proof.
  induction words as [|w words IH]; intros st; simpl; [reflexivity|].
  rewrite step_prepend. destruct (step s st w); [reflexivity | apply IH].
Qed.

Lemma same_outcome_accepts {A} s1 s2 (x y : string + A) a :
  same_outcome s1 s2 x y -> x = inr a -> y = inr a.
Proof.
  unfold same_outcome. intros H ->. destruct y; [contradiction | congruence].
Qed.

Lemma ParseWords_accepts_any_input s1 s2 st words st' :
  ParseWords s1 st words = inr st' -> ParseWords s2 st words = inr st'.
Proof.
  apply (same_outcome_accepts s1 s2), ParseWords_same_outcome.
Qed.

Lemma idle_state_is_prepend st :
  next_push_size st = 0 -> push_data_size st = 0 ->
  st = prepend (result st) initial_state.
Proof.
  destruct st as [r n d]. simpl. intros -> ->.
  unfold prepend. simpl. rewrite app_nil_r. reflexivity.
Qed.

(** X5: when [a] is accepted and leaves no push pending and [b] is
    accepted, [a] and [b] joined by a space, a tab or a newline are accepted,
    and the script is the script of [a] followed by the script of [b]. *)
Theorem scripts_concatenate a c b st ra rb :
  is_sep c = true ->
  ParseWords a initial_state (split a) = inr st ->
  next_push_size st = 0 ->
  result st = ra ->
  ParseScript b = inr rb ->
  ParseScript (a +:+ String c b) = inr (ra ++ rb).
Proof.
  intros Hc Ha Hz <- Hb.
  pose proof (reachable_counters_ok _ _ _ _ _ Ha) as Hok.
  assert (Hd : push_data_size st = 0) by (destruct Hok; lia).
  rewrite ParseWords_tokens in Ha.
  change (List.filter nonempty (split a)) with (tokens a) in Ha.
  rewrite ParseScript_tokens in Hb |- *.
  destruct (ParseWords b initial_state (tokens b)) as [e|stb] eqn:Hpb;
    [discriminate|].
  injection Hb as <-.
  rewrite (tokens_append _ _ _ Hc), ParseWords_app.
  rewrite (ParseWords_accepts_any_input _ (a +:+ String c b) _ _ _ Ha).
  pose proof (idle_state_is_prepend st Hz Hd) as Est.
  remember (result st) as ra eqn:Hra.
  rewrite Est, ParseWords_prepend.
  rewrite (ParseWords_accepts_any_input _ (a +:+ String c b) _ _ _ Hpb).
  reflexivity.
Qed.

(** X6: when [a] and [b] joined by a separator are accepted, [a] alone is
    accepted, and its script is the beginning of the script of the whole. *)
Theorem accepted_input_has_accepted_prefixes a c b r :
  is_sep c = true ->
  ParseScript (a +:+ String c b) = inr r ->
  exists ra rest, ParseScript a = inr ra /\ r = ra ++ rest.
Proof.
  intros Hc H. rewrite ParseScript_tokens in H.
  rewrite (tokens_append _ _ _ Hc), ParseWords_app in H.
  destruct (ParseWords (a +:+ String c b) initial_state (tokens a))
    as [e|sta] eqn:Ha; [discriminate|].
  destruct (ParseWords (a +:+ String c b) sta (tokens b))
    as [e|st'] eqn:Hb; [discriminate|].
  injection H as <-.
  destruct (ParseWords_written _ _ _ _ _ _ Hb) as (bss & _ & Hres).
  exists (result sta), (concat bss). split; [|exact Hres].
  rewrite ParseScript_tokens.
  rewrite (ParseWords_accepts_any_input _ a _ _ _ Ha). reflexivity.
Qed.

(** X7: between two words a PUSHDATA field width is never set without a
    push of as many bytes pending: with no push pending the field width
    is 0, and a field width that is not 0 is 1, 2 or 4 and is the number of
    bytes expected. *)
Theorem field_width_goes_with_push s words st :
  ParseWords s initial_state words = inr st ->
  (next_push_size st = 0 -> push_data_size st = 0)
  /\ (push_data_size st <> 0 ->
      push_data_size st = next_push_size st
      /\ (push_data_size st = 1 \/ push_data_size st = 2
          \/ push_data_size st = 4)).
Proof.
  intros H. pose proof (reachable_counters_ok _ _ _ _ _ H) as Hok.
  unfold counters_ok in Hok. lia.
Qed.

End Composition.

(** ** Pushes, names and unknown words *)

Lemma parse_error_is_not_push_error s n m :
  parse_error_msg s <> push_error_msg n m.
Proof. discriminate. Qed.

Section Pushes.

Variable GetOpName : Z -> string.
Variable FIRST_UNDEFINED_OP_VALUE : Z.

Local Abbreviation emit := (emit GetOpName FIRST_UNDEFINED_OP_VALUE).
Local Abbreviation step := (step GetOpName FIRST_UNDEFINED_OP_VALUE).
Local Abbreviation ParseWords :=
  (ParseWords GetOpName FIRST_UNDEFINED_OP_VALUE).
Local Abbreviation ParseScript :=
  (ParseScript GetOpName FIRST_UNDEFINED_OP_VALUE).
Local Abbreviation mapOpNames :=
  (mapOpNames GetOpName FIRST_UNDEFINED_OP_VALUE).

Lemma emit_at s r w bs : emit s [] w = inr bs -> emit s r w = inr (r ++ bs).
Proof. intros H. rewrite emit_appends, H. reflexivity. Qed.

Lemma step_direct_push s st w n :
  counters_ok st -> next_push_size st = 0 -> w <> EmptyString ->
  n < OP_PUSHDATA1 -> emit s [] w = inr [n] ->
  step s st w = inr (mkState (result st ++ [n]) n 0).
Proof.
  intros Hok Hz Hw Hn He.
  rewrite (step_idle _ _ s st w [n] Hok Hw Hz (emit_at _ _ _ _ He)).
  unfold inspect_opcode. simpl. rewrite List.last_last.
  destruct (Z.ltb_spec n OP_PUSHDATA1); [reflexivity | lia].
Qed.

Lemma step_pushdata_opcode s st w op :
  counters_ok st -> next_push_size st = 0 -> w <> EmptyString ->
  OP_PUSHDATA1 <= op -> emit s [] w = inr [op] ->
  step s st w
  = inr (mkState (result st ++ [op]) (pushdata_width op) (pushdata_width op)).
Proof.
  intros Hok Hz Hw Hop He.
  rewrite (step_idle _ _ s st w [op] Hok Hw Hz (emit_at _ _ _ _ He)).
  unfold inspect_opcode, pushdata_width. simpl. rewrite List.last_last.
  destruct (Z.ltb_spec op OP_PUSHDATA1); [lia|].
  repeat case_match; reflexivity.
Qed.

Lemma step_pending_met s st w bs :
  counters_ok st -> next_push_size st <> 0 -> w <> EmptyString ->
  emit s [] w = inr bs -> Z.of_nat (length bs) = next_push_size st ->
  step s st w
  = inr (mkState (result st ++ bs)
           (if push_data_size st =? 0 then 0 else le_value bs) 0).
Proof.
  intros Hok Hnz Hw He Hlen.
  rewrite (step_pending _ _ s st w bs Hok Hw Hnz (emit_at _ _ _ _ He)).
  rewrite Hlen, Z.eqb_refl. reflexivity.
Qed.

(** X8: a push written out in full is accepted and leaves no push pending.
    After words that leave no push pending, a word that writes the single
    byte n, 0 < n < OP_PUSHDATA1, followed by a word that writes n bytes,
    and a word that writes a PUSHDATA opcode followed by a word that writes
    its length field and a word that writes as many bytes as the field says
    (not 0), are taken, and after them nothing is expected. *)
Theorem framed_push_is_accepted s pre st :
  ParseWords s initial_state pre = inr st ->
  next_push_size st = 0 ->
  (forall w1 w2 n bs,
     w1 <> EmptyString -> w2 <> EmptyString ->
     0 < n < OP_PUSHDATA1 ->
     emit s [] w1 = inr [n] ->
     emit s [] w2 = inr bs ->
     Z.of_nat (length bs) = n ->
     ParseWords s initial_state (pre ++ [w1; w2])
     = inr (mkState (result st ++ [n] ++ bs) 0 0))
  /\ (forall w1 w2 w3 op field bs,
        w1 <> EmptyString -> w2 <> EmptyString -> w3 <> EmptyString ->
        pushdata_width op <> 0 ->
        emit s [] w1 = inr [op] ->
        emit s [] w2 = inr field ->
        Z.of_nat (length field) = pushdata_width op ->
        emit s [] w3 = inr bs ->
        Z.of_nat (length bs) = le_value field ->
        le_value field <> 0 ->
        ParseWords s initial_state (pre ++ [w1; w2; w3])
        = inr (mkState (result st ++ [op] ++ field ++ bs) 0 0)).
Proof.
  intros Hpre Hz.
  pose proof (reachable_counters_ok _ _ _ _ _ Hpre) as Hok.
  split.
  - intros w1 w2 n bs Hw1 Hw2 Hn He1 He2 Hlen.
    rewrite ParseWords_app, Hpre. simpl.
    rewrite (step_direct_push s st w1 n Hok Hz Hw1 ltac:(lia) He1).
    rewrite (step_pending_met s _ w2 bs); simpl;
      try assumption; try lia; [|left; reflexivity].
    rewrite <- app_assoc. reflexivity.
  - intros w1 w2 w3 op field bs Hw1 Hw2 Hw3 Hop He1 He2 Hf He3 Hlen Hnz.
    assert (Hge : OP_PUSHDATA1 <= op).
    { unfold pushdata_width, OP_PUSHDATA1, OP_PUSHDATA2, OP_PUSHDATA4 in *.
      destruct (Z.eqb_spec op 76), (Z.eqb_spec op 77), (Z.eqb_spec op 78);
        lia. }
    assert (Hk : pushdata_width op = 1 \/ pushdata_width op = 2
                 \/ pushdata_width op = 4).
    { unfold pushdata_width in *. repeat case_match; auto. contradiction. }
    rewrite ParseWords_app, Hpre. simpl.
    rewrite (step_pushdata_opcode s st w1 op Hok Hz Hw1 Hge He1).
    rewrite (step_pending_met s _ w2 field); simpl;
      try assumption; [|right; auto].
    destruct (Z.eqb_spec (pushdata_width op) 0); [contradiction|].
    rewrite (step_pending_met s _ w3 bs); simpl;
      try assumption; [|left; reflexivity].
    rewrite <- !app_assoc. reflexivity.
Qed.

(** X9: a word stops [ParseScript] with the parse error exactly when it is
    not empty, none of the rules for numbers, hex and quoted words takes it,
    and [mapOpNames] has no entry for it. *)
Theorem parse_error_means_unknown_word s st w :
  step s st w = inl (parse_error_msg s)
  <-> w <> EmptyString
      /\ is_number_word w = false /\ is_hex_word w = false
      /\ is_quoted_word w = false /\ mapOpNames !! w = None.
Proof.
  unfold step. split.
  - destruct (String.eqb_spec w "") as [->|Hw]; [discriminate|].
    intros H. split; [exact Hw|].
    destruct (emit s (result st) w) as [e|r'] eqn:He.
    + injection H as ->. unfold emit in He.
      destruct (is_number_word w); [discriminate|].
      destruct (is_hex_word w).
      * destruct (IsHex (str_drop 2 w)); simpl in He; discriminate He.
      * destruct (is_quoted_word w); [discriminate|].
        destruct (mapOpNames !! w); [discriminate | auto].
    + apply next_throws in H as (n & m & _ & _ & H).
      exfalso. exact (parse_error_is_not_push_error _ _ _ H).
  - intros (Hw & Hn & Hh & Hq & Hl).
    destruct (String.eqb_spec w ""); [contradiction|].
    unfold emit. rewrite Hn, Hh, Hq, Hl. reflexivity.
Qed.

(** X10: with no push pending, a word that is given its meaning by
    [mapOpNames] writes the one byte of its opcode, which is at least
    OP_PUSHDATA1; so it never announces a direct push, and what it leaves
    pending is the length field of PUSHDATA1, 2 or 4, or nothing. *)
Theorem named_opcode_step s pre st w op :
  ParseWords s initial_state pre = inr st ->
  next_push_size st = 0 ->
  w <> EmptyString ->
  is_number_word w = false -> is_hex_word w = false ->
  is_quoted_word w = false ->
  mapOpNames !! w = Some op ->
  OP_PUSHDATA1 <= op
  /\ step s st w
     = inr (mkState (result st ++ [op]) (pushdata_width op)
              (pushdata_width op)).
Proof.
  intros Hpre Hz Hw Hn Hh Hq Hl.
  pose proof (reachable_counters_ok _ _ _ _ _ Hpre) as Hok.
  destruct (mapOpNames_sound _ _ _ _ Hl) as (_ & Hge & _).
  split; [exact Hge|].
  apply step_pushdata_opcode; try assumption.
  unfold emit. rewrite Hn, Hh, Hq, Hl. reflexivity.
Qed.

(** X11: the rule for numbers takes a non-empty word exactly when the word
    is of the form -?[0-9]+ or is the lone minus sign. *)
Theorem number_rule_words w :
  w <> EmptyString ->
  (is_number_word w = true <-> matches_decimal w = true \/ w = "-"%string).
Proof.
  intros Hw. rewrite (number_word_spec w Hw), orb_true_iff.
  rewrite String.eqb_eq. reflexivity.
Qed.

End Pushes.

(** ** What the table holds *)

Section TableContents.

Variable GetOpName : Z -> string.
Variable FIRST_UNDEFINED_OP_VALUE : Z.

Local Abbreviation add_op_names := (add_op_names GetOpName).
Local Abbreviation mapOpNames :=
  (mapOpNames GetOpName FIRST_UNDEFINED_OP_VALUE).
Local Abbreviation names := (names GetOpName).

Lemma fill_seq_lookup (n : nat) k v :
  foldl add_op_names ∅ (seqZ 0 (Z.of_nat n)) !! k = Some v
  <-> names k v /\ v < Z.of_nat n
      /\ forall v', names k v' -> v' < Z.of_nat n -> v' <= v.
Proof.
  revert v. induction n as [|n IH]; intros v.
  - simpl. rewrite lookup_empty. split; [discriminate|].
    intros ((Hge & _) & Hlt & _). unfold OP_PUSHDATA1 in Hge. lia.
  - rewrite seqZ_S, foldl_snoc, Z.add_0_l.
    destruct (names_dec GetOpName k (Z.of_nat n)) as [Hn|Hn].
    + rewrite (add_op_names_hit _ _ _ _ Hn). split.
      * intros [= <-]. split; [exact Hn|]. split; [lia|]. intros; lia.
      * intros (Hv & Hlt & Hmax).
        assert (v = Z.of_nat n) as -> by (specialize (Hmax _ Hn); lia).
        reflexivity.
    + rewrite (add_op_names_miss _ _ _ _ Hn), IH. split.
      * intros (Hv & Hlt & Hmax). split; [exact Hv|]. split; [lia|].
        intros v' Hv' Hlt'.
        destruct (Z.eq_dec v' (Z.of_nat n)) as [->|]; [contradiction|].
        apply Hmax; [exact Hv' | lia].
      * intros (Hv & Hlt & Hmax). split; [exact Hv|].
        assert (v <> Z.of_nat n) by (intros ->; contradiction).
        split; [lia|]. intros v' Hv' Hlt'. apply Hmax; [exact Hv' | lia].
Qed.

(** X12: [mapOpNames] holds [v] under the key [k] exactly when [v], below
    the first undefined value, is entered under [k] (it is at least
    OP_PUSHDATA1, is not named OP_UNKNOWN, and [k] is its name or its name
    with the first OP_ removed) and no greater such opcode is: where two
    opcodes share a key, the later one is kept. *)
Theorem table_keeps_last_entry k v :
  mapOpNames !! k = Some v
  <-> names k v /\ v < FIRST_UNDEFINED_OP_VALUE
      /\ forall v',
           names k v' -> v' < FIRST_UNDEFINED_OP_VALUE -> v' <= v.
Proof.
  unfold mapOpNames.
  destruct (Z.le_gt_cases 0 FIRST_UNDEFINED_OP_VALUE) as [Hpos|Hneg].
  - rewrite <- (Z2Nat.id FIRST_UNDEFINED_OP_VALUE Hpos).
    apply fill_seq_lookup.
  - rewrite seqZ_nil by lia. simpl. rewrite lookup_empty.
    split; [discriminate|].
    intros ((Hge & _) & Hlt & _). unfold OP_PUSHDATA1 in Hge. lia.
Qed.

End TableContents.

(** ** ParseHashUV, ParseHashStr and ParseHexUV *)

Lemma prefix_append a b : String.prefix a (a +:+ b) = true.
Proof.
  induction a as [|c a IH]; [destruct b; reflexivity|].
  rewrite append_cons, prefix_cons, Ascii.eqb_refl. exact IH.
Qed.

Lemma contains_prefix hay needle :
  String.prefix needle hay = true -> contains hay needle = true.
Proof. intros H. destruct hay; cbn [contains]; rewrite H; reflexivity. Qed.

Lemma contains_between a s b : contains (a +:+ s +:+ b) s = true.
Proof.
  induction a as [|c a IH].
  - rewrite append_nil. apply contains_prefix, prefix_append.
  - rewrite append_cons. simpl. rewrite IH. apply orb_true_r.
Qed.

Lemma append_assoc a b c : (a +:+ b) +:+ c = a +:+ (b +:+ c).
Proof.
  induction a as [|x a IH]; [reflexivity|].
  rewrite !append_cons, IH. reflexivity.
Qed.

Lemma not_hex_msg_names strName strHex :
  String.prefix strName (not_hex_msg strName strHex) = true
  /\ contains (not_hex_msg strName strHex) strHex = true.
Proof.
  unfold not_hex_msg. split; [apply prefix_append|].
  rewrite <- append_assoc. apply contains_between.
Qed.

Lemma HexDigit_range c : HexDigit c = -1 \/ 0 <= HexDigit c < 16.
Proof.
  unfold HexDigit. set (n := char_code c).
  destruct (Z.leb_spec 48 n), (Z.leb_spec n 57), (Z.leb_spec 97 n),
    (Z.leb_spec n 102), (Z.leb_spec 65 n), (Z.leb_spec n 70); simpl; lia.
Qed.

Lemma hex_byte_range h1 h2 :
  0 <= h1 < 16 -> 0 <= h2 < 16 -> is_byte (Z.lor (Z.shiftl h1 4) h2).
Proof.
  intros H1 H2. unfold is_byte.
  assert (h1 = 0 \/ h1 = 1 \/ h1 = 2 \/ h1 = 3 \/ h1 = 4 \/ h1 = 5 \/ h1 = 6
          \/ h1 = 7 \/ h1 = 8 \/ h1 = 9 \/ h1 = 10 \/ h1 = 11 \/ h1 = 12
          \/ h1 = 13 \/ h1 = 14 \/ h1 = 15) as Hc1 by lia.
  assert (h2 = 0 \/ h2 = 1 \/ h2 = 2 \/ h2 = 3 \/ h2 = 4 \/ h2 = 5 \/ h2 = 6
          \/ h2 = 7 \/ h2 = 8 \/ h2 = 9 \/ h2 = 10 \/ h2 = 11 \/ h2 = 12
          \/ h2 = 13 \/ h2 = 14 \/ h2 = 15) as Hc2 by lia.
  clear H1 H2.
  repeat (destruct Hc1 as [->|Hc1]); try subst h1;
    repeat (destruct Hc2 as [->|Hc2]); try subst h2;
    (split; [apply Z.leb_le | apply Z.ltb_lt]; reflexivity).
Qed.

Lemma ParseHex_bytes psz : Forall is_byte (ParseHex psz).
Proof.
  assert (H : forall n s, (String.length s <= n)%nat ->
                          Forall is_byte (ParseHex s)).
  { induction n as [|n IH]; intros [|c1 [|c2 rest]] Hlen;
      cbn [ParseHex String.length] in *; try (constructor; fail); try lia.
    destruct (Z.ltb_spec (HexDigit c1) 0), (Z.ltb_spec (HexDigit c2) 0);
      simpl; try (constructor; fail).
    constructor.
    - destruct (HexDigit_range c1), (HexDigit_range c2); try lia.
      apply hex_byte_range; assumption.
    - apply IH. lia. }
  apply (H (String.length psz)). lia.
Qed.

Section HashText.

Variable uint256 : Type.
Variable SetHex : string -> uint256.

Local Abbreviation ParseHashStr := (ParseHashStr uint256 SetHex).
Local Abbreviation ParseHashUV := (ParseHashUV uint256 SetHex).

(** X13: a value that is not a string, or holds the empty string, is
    refused by [ParseHashUV] and by [ParseHexUV] with the message that
    quotes an empty text. *)
Theorem value_without_text_is_refused v strName :
  isStr v = false \/ getValStr v = EmptyString ->
  ParseHashUV v strName = inl (not_hex_msg strName "")
  /\ ParseHexUV v strName = inl (not_hex_msg strName "").
Proof.
  intros H. unfold ParseHashUV, ParseHashStr, ParseHexUV.
  destruct (isStr v); [|split; reflexivity].
  destruct H as [H|H]; [discriminate|]. rewrite H. split; reflexivity.
Qed.

(** X14: what [ParseHexUV] returns is never empty: the value was a string
    that [IsHex] accepts, and the bytes are [ParseHex] of it, one byte in
    0..255 for every two characters. *)
Theorem ParseHexUV_bytes v strName bytes :
  ParseHexUV v strName = inr bytes ->
  isStr v = true
  /\ IsHex (getValStr v) = true
  /\ bytes = ParseHex (getValStr v)
  /\ String.length (getValStr v) = (2 * length bytes)%nat
  /\ bytes <> []
  /\ Forall is_byte bytes.
Proof.
  unfold ParseHexUV. destruct (isStr v); simpl; [|discriminate].
  destruct (IsHex (getValStr v)) eqn:Hhex; simpl; [|discriminate].
  intros [= <-].
  destruct (IsHex_inv _ Hhex) as (Hall & Hne & n & Hn).
  pose proof (ParseHex_length n _ Hn Hall) as Hlen.
  repeat split; try reflexivity.
  - lia.
  - intros E. rewrite E in Hlen. simpl in Hlen. subst n.
    destruct (getValStr v); [contradiction | discriminate Hn].
  - apply ParseHex_bytes.
Qed.

(** X15: a text that [IsHex] rejects is refused by [ParseHashStr], and as
    the text of a string value by [ParseHashUV] and [ParseHexUV], with one
    and the same message, which begins with the name given and has the text
    in it. *)
Theorem refusal_names_and_quotes strHex strName :
  IsHex strHex = false ->
  ParseHashStr strHex strName = inl (not_hex_msg strName strHex)
  /\ (forall v,
        isStr v = true -> getValStr v = strHex ->
        ParseHashUV v strName = inl (not_hex_msg strName strHex)
        /\ ParseHexUV v strName = inl (not_hex_msg strName strHex))
  /\ String.prefix strName (not_hex_msg strName strHex) = true
  /\ contains (not_hex_msg strName strHex) strHex = true.
Proof.
  intros Hhex. unfold ParseHashUV, ParseHashStr, ParseHexUV.
  rewrite Hhex. split; [reflexivity|]. split.
  - intros v -> ->. rewrite Hhex. split; reflexivity.
  - apply not_hex_msg_names.
Qed.

End HashText.

(** ** Closed instances of the further properties *)

Lemma whitespace_is_empty_script_witness :
  all (String " " (String "009" (String "010" ""))) is_sep = true
  /\ sampleParseScript (String " " (String "009" (String "010" ""))) = inr [].
Proof.
  split; [reflexivity|].
  exact (whitespace_is_empty_script sampleOpName sampleFirstUndefined
           (String " " (String "009" (String "010" ""))) eq_refl).
Defined.

Lemma layout_is_irrelevant_witness :
  tokens "1 ADD" = tokens (String "009" "1  ADD ")
  /\ same_outcome "1 ADD" (String "009" "1  ADD ")
       (sampleParseScript "1 ADD")
       (sampleParseScript (String "009" "1  ADD ")).
Proof.
  split; [reflexivity|].
  exact (layout_is_irrelevant sampleOpName sampleFirstUndefined
           "1 ADD" (String "009" "1  ADD ") eq_refl).
Defined.

Lemma script_is_what_the_words_write_witness :
  sampleParseScript "16 'ab'" = inr [96; 2; 97; 98]
  /\ exists bss,
       Forall2 (fun w bs =>
                  emit sampleOpName sampleFirstUndefined "16 'ab'" [] w
                  = inr bs)
               (tokens "16 'ab'") bss
       /\ [96; 2; 97; 98] = concat bss.
Proof.
  assert (H : sampleParseScript "16 'ab'" = inr [96; 2; 97; 98])
    by (vm_compute; reflexivity).
  split; [exact H|].
  exact (script_is_what_the_words_write sampleOpName sampleFirstUndefined
           "16 'ab'" [96; 2; 97; 98] H).
Defined.

Lemma quoted_content_has_no_whitespace_witness :
  In "'a'"%string (split "1 'a'")
  /\ is_quoted_word "'a'" = true
  /\ Forall (fun b => b <> 32 /\ b <> 9 /\ b <> 10)
            (bytes_of_string (quoted_content "'a'")).
Proof.
  split; [right; left; reflexivity|]. split; [reflexivity|].
  exact (proj2 (quoted_content_has_no_whitespace "1 'a'" "'a'"
                  (or_intror (or_introl eq_refl)) eq_refl)).
Defined.

Lemma scripts_concatenate_witness :
  ParseWords sampleOpName sampleFirstUndefined "1 DUP" initial_state
    (split "1 DUP") = inr (mkState [81; 118] 0 0)
  /\ sampleParseScript "0x01 0x07" = inr [1; 7]
  /\ sampleParseScript "1 DUP 0x01 0x07" = inr [81; 118; 1; 7].
Proof.
  assert (Ha : ParseWords sampleOpName sampleFirstUndefined "1 DUP"
                 initial_state (split "1 DUP") = inr (mkState [81; 118] 0 0))
    by (vm_compute; reflexivity).
  assert (Hb : sampleParseScript "0x01 0x07" = inr [1; 7])
    by (vm_compute; reflexivity).
  split; [exact Ha|]. split; [exact Hb|].
  exact (scripts_concatenate sampleOpName sampleFirstUndefined
           "1 DUP" " " "0x01 0x07" (mkState [81; 118] 0 0) [81; 118] [1; 7]
           eq_refl Ha eq_refl eq_refl Hb).
Defined.

Lemma accepted_input_has_accepted_prefixes_witness :
  sampleParseScript "0x02 0x0102 ADD" = inr [2; 1; 2; 147]
  /\ exists ra rest,
       sampleParseScript "0x02 0x0102" = inr ra /\ [2; 1; 2; 147] = ra ++ rest.
Proof.
  assert (H : sampleParseScript "0x02 0x0102 ADD" = inr [2; 1; 2; 147])
    by (vm_compute; reflexivity).
  split; [exact H|].
  exact (accepted_input_has_accepted_prefixes sampleOpName
           sampleFirstUndefined "0x02 0x0102" " " "ADD" [2; 1; 2; 147]
           eq_refl H).
Defined.

Lemma field_width_goes_with_push_witness :
  ParseWords sampleOpName sampleFirstUndefined "PUSHDATA2" initial_state
    ["PUSHDATA2"%string] = inr (mkState [77] 2 2)
  /\ (push_data_size (mkState [77] 2 2) <> 0 ->
      push_data_size (mkState [77] 2 2) = next_push_size (mkState [77] 2 2)
      /\ (push_data_size (mkState [77] 2 2) = 1
          \/ push_data_size (mkState [77] 2 2) = 2
          \/ push_data_size (mkState [77] 2 2) = 4)).
Proof.
  assert (H : ParseWords sampleOpName sampleFirstUndefined "PUSHDATA2"
                initial_state ["PUSHDATA2"%string] = inr (mkState [77] 2 2))
    by (vm_compute; reflexivity).
  split; [exact H|].
  exact (proj2 (field_width_goes_with_push sampleOpName sampleFirstUndefined
                  "PUSHDATA2" ["PUSHDATA2"%string] (mkState [77] 2 2) H)).
Defined.

Lemma framed_push_is_accepted_witness :
  ParseWords sampleOpName sampleFirstUndefined "1 PUSHDATA1 0x02 'ab'"
    initial_state ["1"; "0x02"; "0x0102"]%string
  = inr (mkState [81; 2; 1; 2] 0 0)
  /\ ParseWords sampleOpName sampleFirstUndefined "1 PUSHDATA1 0x02 'ab'"
       initial_state ["1"; "PUSHDATA1"; "0x03"; "'ab'"]%string
     = inr (mkState [81; 76; 3; 2; 97; 98] 0 0).
Proof.
  assert (Hpre : ParseWords sampleOpName sampleFirstUndefined
                   "1 PUSHDATA1 0x02 'ab'" initial_state ["1"%string]
                 = inr (mkState [81] 0 0)) by (vm_compute; reflexivity).
  destruct (framed_push_is_accepted sampleOpName sampleFirstUndefined
              "1 PUSHDATA1 0x02 'ab'" ["1"%string] (mkState [81] 0 0)
              Hpre eq_refl) as [Hdirect Hfield].
  split.
  - exact (Hdirect "0x02"%string "0x0102"%string 2 [1; 2]
             ltac:(discriminate) ltac:(discriminate) ltac:(unfold OP_PUSHDATA1; lia)
             eq_refl eq_refl eq_refl).
  - exact (Hfield "PUSHDATA1"%string "0x03"%string "'ab'"%string 76 [3]
             [2; 97; 98] ltac:(discriminate) ltac:(discriminate)
             ltac:(discriminate) ltac:(discriminate)
             ltac:(vm_compute; reflexivity) eq_refl eq_refl eq_refl eq_refl
             ltac:(discriminate)).
Defined.

Lemma parse_error_means_unknown_word_witness :
  mapOpNames sampleOpName sampleFirstUndefined !! "add"%string = None
  /\ step sampleOpName sampleFirstUndefined "1 add" (mkState [81] 0 0) "add"
     = inl (parse_error_msg "1 add").
Proof.
  assert (Hl : mapOpNames sampleOpName sampleFirstUndefined !! "add"%string
               = None) by (vm_compute; reflexivity).
  split; [exact Hl|].
  apply (proj2 (parse_error_means_unknown_word sampleOpName
                  sampleFirstUndefined "1 add" (mkState [81] 0 0) "add")).
  repeat split; first [exact Hl | discriminate | reflexivity].
Defined.

Lemma named_opcode_step_witness :
  mapOpNames sampleOpName sampleFirstUndefined !! "PUSHDATA4"%string = Some 78
  /\ step sampleOpName sampleFirstUndefined "PUSHDATA4" initial_state
       "PUSHDATA4" = inr (mkState [78] 4 4).
Proof.
  assert (Hl : mapOpNames sampleOpName sampleFirstUndefined
               !! "PUSHDATA4"%string = Some 78) by (vm_compute; reflexivity).
  split; [exact Hl|].
  exact (proj2 (named_opcode_step sampleOpName sampleFirstUndefined
                  "PUSHDATA4" [] initial_state "PUSHDATA4" 78
                  eq_refl eq_refl ltac:(discriminate) eq_refl eq_refl eq_refl
                  Hl)).
Defined.

Lemma number_rule_words_witness :
  matches_decimal "-12" = true /\ is_number_word "-12" = true.
Proof.
  split; [reflexivity|].
  exact (proj2 (number_rule_words "-12" ltac:(discriminate))
               (or_introl eq_refl)).
Defined.

Lemma table_keeps_last_entry_witness :
  mapOpNames sampleOpName sampleFirstUndefined !! "DUP"%string = Some 118
  /\ names sampleOpName "DUP" 118
  /\ forall v',
       names sampleOpName "DUP" v' -> v' < sampleFirstUndefined -> v' <= 118.
Proof.
  assert (Hl : mapOpNames sampleOpName sampleFirstUndefined !! "DUP"%string
               = Some 118) by (vm_compute; reflexivity).
  split; [exact Hl|].
  destruct (proj1 (table_keeps_last_entry sampleOpName sampleFirstUndefined
                     "DUP" 118) Hl) as (Hn & _ & Hmax).
  split; [exact Hn | exact Hmax].
Defined.

Lemma value_without_text_is_refused_witness :
  isStr (mkUniValue VNUM "12") = false
  /\ ParseHexUV (mkUniValue VNUM "12") "data"
     = inl "data must be hexadecimal string (not '')"%string.
Proof.
  split; [reflexivity|].
  exact (proj2 (value_without_text_is_refused Z (fun _ => 0)
                  (mkUniValue VNUM "12") "data" (or_introl eq_refl))).
Defined.

Lemma ParseHexUV_bytes_witness :
  ParseHexUV (mkUniValue VSTR "00ff") "data" = inr [0; 255]
  /\ [0; 255] <> []
  /\ Forall is_byte [0; 255].
Proof.
  assert (H : ParseHexUV (mkUniValue VSTR "00ff") "data" = inr [0; 255])
    by reflexivity.
  split; [exact H|].
  destruct (ParseHexUV_bytes (mkUniValue VSTR "00ff") "data" [0; 255] H)
    as (_ & _ & _ & _ & Hne & Hb).
  split; [exact Hne | exact Hb].
Defined.

Lemma refusal_names_and_quotes_witness :
  IsHex "xyz" = false
  /\ ParseHashStr Z (fun _ => 0) "xyz" "txid"
     = inl "txid must be hexadecimal string (not 'xyz')"%string
  /\ contains "txid must be hexadecimal string (not 'xyz')" "xyz" = true.
Proof.
  destruct (refusal_names_and_quotes Z (fun _ => 0) "xyz" "txid" eq_refl)
    as (H1 & _ & _ & H4).
  split; [reflexivity|]. split; [exact H1 | exact H4].
Defined.

(** ** Malformed hex and missing names *)

Section Refusals.

Variable GetOpName : Z -> string.
Variable FIRST_UNDEFINED_OP_VALUE : Z.

Local Abbreviation add_op_names := (add_op_names GetOpName).
Local Abbreviation emit := (emit GetOpName FIRST_UNDEFINED_OP_VALUE).
Local Abbreviation step := (step GetOpName FIRST_UNDEFINED_OP_VALUE).
Local Abbreviation mapOpNames :=
  (mapOpNames GetOpName FIRST_UNDEFINED_OP_VALUE).
Local Abbreviation names := (names GetOpName).

(** X16: a word stops [ParseScript] with the hex error exactly when it
    starts with 0x, has something after it, and what is after it is not
    accepted by [IsHex]; whether a push is pending makes no difference. *)
Theorem hex_error_means_malformed_hex s st w :
  step s st w = inl hex_error_msg
  <-> is_hex_word w = true /\ IsHex (str_drop 2 w) = false.
Proof.
  unfold step. split.
  - destruct (String.eqb w ""); [discriminate|]. intros H.
    destruct (emit s (result st) w) as [e|r'] eqn:He.
    + injection H as ->. unfold emit in He.
      destruct (is_number_word w); [discriminate|].
      destruct (is_hex_word w).
      * destruct (IsHex (str_drop 2 w)); [discriminate | auto].
      * destruct (is_quoted_word w); [discriminate|].
        destruct (mapOpNames !! w); discriminate He.
    + apply next_throws in H as (n & m & _ & _ & H). discriminate H.
  - intros [Hh Hx].
    pose proof Hh as Hp. unfold is_hex_word, starts_with in Hp.
    apply andb_prop in Hp as [Hp _]. apply (prefix_drop "0x") in Hp.
    assert (Hn : is_number_word w = false)
      by (rewrite Hp; apply hex_word_rules).
    assert (Hw : String.eqb w "" = false) by (rewrite Hp; reflexivity).
    rewrite Hw. unfold emit. rewrite Hn, Hh, Hx. reflexivity.
Qed.

Lemma fill_seq_finds (n : nat) k v :
  names k v -> v < Z.of_nat n ->
  exists v', foldl add_op_names ∅ (seqZ 0 (Z.of_nat n)) !! k = Some v'.
Proof.
  intros Hv. induction n as [|n IH]; intros Hlt.
  - destruct Hv as (Hge & _). unfold OP_PUSHDATA1 in Hge. lia.
  - rewrite seqZ_S, foldl_snoc, Z.add_0_l.
    destruct (names_dec GetOpName k (Z.of_nat n)) as [Hn|Hn].
    + rewrite (add_op_names_hit _ _ _ _ Hn). eauto.
    + rewrite (add_op_names_miss _ _ _ _ Hn). apply IH.
      assert (v <> Z.of_nat n) by (intros ->; contradiction). lia.
Qed.

(** X17: [mapOpNames] has no entry for a key exactly when no opcode below
    the first undefined value is entered under it: every opcode from
    OP_PUSHDATA1 on whose name is not OP_UNKNOWN has its name and its name
    without the first OP_ among the keys. *)
Theorem table_misses_only_unnamed k :
  mapOpNames !! k = None
  <-> forall v, v < FIRST_UNDEFINED_OP_VALUE -> ~ names k v.
Proof.
  split.
  - intros Hnone v Hlt Hv.
    assert (Hpos : 0 <= FIRST_UNDEFINED_OP_VALUE).
    { destruct Hv as (Hge & _). unfold OP_PUSHDATA1 in Hge. lia. }
    destruct (fill_seq_finds (Z.to_nat FIRST_UNDEFINED_OP_VALUE) k v Hv)
      as [v' Hv']; [lia|].
    rewrite Z2Nat.id in Hv' by exact Hpos.
    unfold mapOpNames in Hnone. congruence.
  - intros Hno. destruct (mapOpNames !! k) as [v|] eqn:Hl; [|reflexivity].
    destruct (mapOpNames_sound _ _ _ _ Hl) as [Hlt Hv].
    exfalso. exact (Hno v Hlt Hv).
Qed.

End Refusals.

Lemma hex_error_means_malformed_hex_witness :
  is_hex_word "0x123" = true
  /\ IsHex "123" = false
  /\ step sampleOpName sampleFirstUndefined "0x05 0x123" (mkState [5] 5 0)
       "0x123" = inl hex_error_msg.
Proof.
  split; [reflexivity|]. split; [reflexivity|].
  exact (proj2 (hex_error_means_malformed_hex sampleOpName
                  sampleFirstUndefined "0x05 0x123" (mkState [5] 5 0)
                  "0x123") (conj eq_refl eq_refl)).
Defined.

Lemma table_misses_only_unnamed_witness :
  mapOpNames sampleOpName sampleFirstUndefined !! "OP_1"%string = None
  /\ ~ names sampleOpName "OP_1" 81.
Proof.
  assert (Hl : mapOpNames sampleOpName sampleFirstUndefined !! "OP_1"%string
               = None) by (vm_compute; reflexivity).
  split; [exact Hl|].
  exact (proj1 (table_misses_only_unnamed sampleOpName sampleFirstUndefined
                  "OP_1") Hl 81 eq_refl).
Defined.

(** ** A PUSHDATA byte written while a push is pending *)


Example pushdata_byte_as_data_accepted :
  sampleParseScript "0x01 PUSHDATA1 0x0102" = inr [1; 76; 1; 2].
Proof. vm_compute. reflexivity. Qed.
